(** * merchant-hub: poll coordination, cursor tracking and stream delivery

    A shallow embedding of the coordination core of merchant-hub
    ([src/lib/redis.ts], [src/lib/haf-polling.ts], the consume / ack /
    heartbeat / wake-up routes and the restaurant configuration).

    - Redis is modelled as explicit state: a key/value store for the
      cursors ([lastId:<account>:<currency>]), a log of the [XADD]s made on
      the per-restaurant transfer streams, the lease key
      [polling:poller] with its expiry, and a stream with one consumer
      group for the consume / ack protocol.
    - Every call to Redis or to the HAF ledger is an operation that may
      fail (a transient error); which ones fail is given by the
      environment, so a failure "at any point" of a cycle is one choice of
      the failure predicate.
    - JavaScript [Map]s are insertion-ordered association lists. *)

From Stdlib Require Import String Ascii ZArith List Bool Lia.
Import ListNotations.
Open Scope string_scope.
Open Scope Z_scope.

(* ------------------------------------------------------------------ *)
(** ** Strings *)

(** [s.includes(pat)]. *)
Fixpoint includes (s pat : string) : bool :=
  String.prefix pat s ||
  match s with
  | EmptyString => false
  | String _ s' => includes s' pat
  end.

(** [s.replace(/%/g, '')]. *)
Fixpoint strip_percent (s : string) : string :=
  match s with
  | EmptyString => EmptyString
  | String c s' =>
      if Ascii.eqb c "%"%char then strip_percent s' else String c (strip_percent s')
  end.

(* ------------------------------------------------------------------ *)
(** ** JavaScript [Map] as an insertion-ordered association list *)

Fixpoint map_get {V} (m : list (string * V)) (k : string) : option V :=
  match m with
  | [] => None
  | (k', v) :: m' => if String.eqb k k' then Some v else map_get m' k
  end.

(** [m.set(k, v)]: overwrite in place, or append a new key at the end. *)
Fixpoint map_set {V} (m : list (string * V)) (k : string) (v : V) : list (string * V) :=
  match m with
  | [] => [(k, v)]
  | (k', v') :: m' => if String.eqb k k' then (k, v) :: m' else (k', v') :: map_set m' k v
  end.

(** [m.get(k) || BigInt(0)]. *)
Definition get_or0 (m : list (string * Z)) (k : string) : Z :=
  match map_get m k with Some v => v | None => 0 end.

(* ------------------------------------------------------------------ *)
(** ** Types ([src/types/index.ts]) and configuration ([lib/config]) *)

Inductive Currency := HBD | EURO | HIVE | OCLT.

Definition currency_str (c : Currency) : string :=
  match c with HBD => "HBD" | EURO => "EURO" | HIVE => "HIVE" | OCLT => "OCLT" end.

Record RestaurantConfig := {
  rc_id : string;
  rc_name : string;
  rc_prod : string;
  rc_dev : string;
  rc_currencies : list Currency;
  rc_memoFilters : Currency -> option string
}.

Inductive EnvKind := Prod | Dev.

Record AccountConfig := {
  ac_account : string;
  ac_restaurant : RestaurantConfig;
  ac_env : EnvKind
}.

Definition default_filters (c : Currency) : option string :=
  match c with HBD | EURO | OCLT => Some "%TABLE %" | HIVE => None end.

(** [RESTAURANTS], with the account environment variables unset. *)
Definition RESTAURANTS : list RestaurantConfig := [
  {| rc_id := "indies"; rc_name := "Indies Restaurant";
     rc_prod := "indies.cafe"; rc_dev := "indies-test";
     rc_currencies := [HBD; EURO; OCLT]; rc_memoFilters := default_filters |};
  {| rc_id := "croque-bedaine"; rc_name := "Le Croque Bedaine";
     rc_prod := "croque.bedaine"; rc_dev := "croque-test";
     rc_currencies := [HBD; EURO; OCLT]; rc_memoFilters := default_filters |} ].

(** [getAllAccounts]: prod then dev account of every restaurant. *)
Definition getAllAccounts (rs : list RestaurantConfig) : list AccountConfig :=
  flat_map (fun r =>
    [ {| ac_account := rc_prod r; ac_restaurant := r; ac_env := Prod |};
      {| ac_account := rc_dev r; ac_restaurant := r; ac_env := Dev |} ]) rs.

Definition Context := list (string * (RestaurantConfig * EnvKind)).

(** The loop of [pollAllTransfers] building [accountToContext] and
    [accountList]. *)
Fixpoint build_ctx (cs : list AccountConfig) (ctx : Context) : Context :=
  match cs with
  | [] => ctx
  | c :: cs' => build_ctx cs' (map_set ctx (ac_account c) (ac_restaurant c, ac_env c))
  end.

Definition accountList (cs : list AccountConfig) : list string := map ac_account cs.

(** [restaurant.memoFilters[c] || '%TABLE %'], then [.replace(/%/g, '')]. *)
Definition memo_pattern (r : RestaurantConfig) (c : Currency) : string :=
  strip_percent
    (match rc_memoFilters r c with
     | Some f => if String.eqb f "" then "%TABLE %" else f
     | None => "%TABLE %"
     end).

Record Transfer := {
  t_id : Z;
  t_restaurant_id : string;
  t_account : string;
  t_from_account : string;
  t_amount : string;
  t_symbol : Currency;
  t_memo : string;
  t_parsed_memo : string;
  t_received_at : Z;
  t_block_num : option Z
}.

(* ------------------------------------------------------------------ *)
(** ** Ledger rows and the SQL of the two queries *)

(** A row of [hafsql.operation_transfer_table]. *)
Record HbdRow := {
  h_id : Z;
  h_to : string;
  h_from : string;
  h_amount : string;
  h_symbol : string;
  h_memo : string
}.

(** [contractPayload.memo]: a string, another JSON value (kept as its
    [JSON.stringify]), or a falsy value. *)
Inductive MemoRaw := MemoStr (s : string) | MemoJson (stringified : string) | MemoFalsy.

Record Payload := {
  p_symbol : option string;
  p_to : option string;
  p_memo : MemoRaw;
  p_quantity : option string
}.

Record CjJson := {
  contractName : option string;
  contractAction : option string;
  contractPayload : option Payload
}.

(** Result of parsing [row.json]. *)
Inductive JsonParse := JParseError | JNull | JObject (j : CjJson).

(** A row of [hafsql.operation_custom_json_view]. *)
Record CjRow := {
  cj_id : Z;
  cj_timestamp : Z;
  cj_auths : option (list string);
  cj_json : JsonParse;
  cj_block : Z;
  cj_custom_id : string
}.

(** [ORDER BY key DESC] (stable insertion sort). *)
Fixpoint insert_desc {A} (key : A -> Z) (x : A) (l : list A) : list A :=
  match l with
  | [] => [x]
  | y :: l' => if key y <? key x then x :: l else y :: insert_desc key x l'
  end.

Fixpoint sort_desc {A} (key : A -> Z) (l : list A) : list A :=
  match l with [] => [] | x :: l' => insert_desc key x (sort_desc key l') end.

(** The HBD [SELECT ... WHERE to_account = ANY($1) AND symbol = 'HBD'
    AND id > $2 ORDER BY id DESC LIMIT 100] over a table. *)
Definition sql_hbd (table : list HbdRow) (accounts : list string) (minId : Z) : list HbdRow :=
  firstn 100 (sort_desc h_id
    (filter (fun r => existsb (String.eqb (h_to r)) accounts
                      && String.eqb (h_symbol r) "HBD" && (minId <? h_id r)) table)).

(** [SELECT block_num FROM hafsql.haf_blocks ORDER BY block_num DESC LIMIT 1]. *)
Definition sql_head (blocks : list Z) : option Z :=
  match blocks with [] => None | b :: bs => Some (fold_left Z.max bs b) end.

(** The custom_json [SELECT ... WHERE block_num BETWEEN $1 AND $2 AND
    custom_id = 'ssc-mainnet-hive' AND id > $3 ORDER BY block_num DESC
    LIMIT 1000]. *)
Definition sql_cj (table : list CjRow) (lo hi minId : Z) : list CjRow :=
  firstn 1000 (sort_desc cj_block
    (filter (fun r => (lo <=? cj_block r) && (cj_block r <=? hi)
                      && String.eqb (cj_custom_id r) "ssc-mainnet-hive"
                      && (minId <? cj_id r)) table)).

(** The external ledger: the answers it gives to the three queries. *)
Record Ledger := {
  hbd_query : list string -> Z -> list HbdRow;
  head_query : option Z;
  cj_query : Z -> Z -> Z -> list CjRow
}.

(** A ledger that evaluates the queries as written over its tables. *)
Definition sql_ledger (transfers : list HbdRow) (blocks : list Z) (cjs : list CjRow) : Ledger :=
  {| hbd_query := sql_hbd transfers; head_query := sql_head blocks; cj_query := sql_cj cjs |}.

(* ------------------------------------------------------------------ *)
(** ** Redis state, external operations and the cycle monad *)

Record Store := {
  kv : string -> option Z;               (** [lastId:*] keys *)
  published : list (string * Transfer)   (** [XADD transfers:<rid>] log *)
}.

(** [lastId:${account}:${currency}]. *)
Definition lastId_key (account : string) (c : Currency) : string :=
  "lastId:" ++ account ++ ":" ++ currency_str c.

(** [getLastId]: stored value, or [0] when absent. *)
Definition cursor (s : Store) (k : string) : Z :=
  match kv s k with Some v => v | None => 0 end.

(** Every call to Redis or to the ledger. *)
Inductive Op :=
| OGet (key : string)
| OSet (key : string)
| OXAdd (stream : string)
| OHbdQuery
| OConnect (sym : Currency)
| OSession (sym : Currency) (n : nat)
| OBlockQuery (sym : Currency)
| OCjQuery (sym : Currency).

Record Env := {
  ledger : Ledger;
  fails : Op -> bool;   (** which calls raise a transient error *)
  now : Z
}.

(** A computation of a cycle: reads the environment, threads the store,
    and either returns a value or throws (keeping what it already wrote). *)
Definition M (A : Type) := Env -> Store -> option A * Store.

Definition ret {A} (a : A) : M A := fun _ s => (Some a, s).
Definition bind {A B} (m : M A) (k : A -> M B) : M B :=
  fun e s => match m e s with
             | (Some a, s') => k a e s'
             | (None, s') => (None, s')
             end.
Definition throw {A} : M A := fun _ s => (None, s).
Definition askE : M Env := fun e s => (Some e, s).
Definition getS : M Store := fun _ s => (Some s, s).
Definition putS (s : Store) : M unit := fun _ _ => (Some tt, s).

Notation "x <- m ;; k" := (bind m (fun x => k))
  (at level 61, m at next level, right associativity).
Notation "m ;;; k" := (bind m (fun _ => k))
  (at level 61, right associativity).

(** An external call: throws when the environment makes it fail. *)
Definition call (o : Op) : M unit :=
  fun e s => if fails e o then (None, s) else (Some tt, s).

Definition getLastId (account : string) (c : Currency) : M Z :=
  call (OGet (lastId_key account c)) ;;;
  s <- getS ;; ret (cursor s (lastId_key account c)).

(** [setLastId]: a plain [SET], no comparison with the stored value. *)
Definition setLastId (account : string) (c : Currency) (id : Z) : M unit :=
  call (OSet (lastId_key account c)) ;;;
  s <- getS ;;
  putS {| kv := fun k => if String.eqb k (lastId_key account c) then Some id else kv s k;
          published := published s |}.

Definition publishTransfer (rid : string) (t : Transfer) : M unit :=
  call (OXAdd ("transfers:" ++ rid)) ;;;
  s <- getS ;;
  putS {| kv := kv s; published := (published s ++ [(rid, t)])%list |}.

(* ------------------------------------------------------------------ *)
(** ** The transfer detectors ([src/lib/haf-polling.ts]) *)

Definition MAX_SAFE_INTEGER : Z := 9007199254740991.

(** The cursor-reading loop: builds [accountLastIds] and [minLastId]. *)
Fixpoint read_lastIds (c : Currency) (accts : list string)
    (ids : list (string * Z)) (mn : Z) : M (list (string * Z) * Z) :=
  match accts with
  | [] => ret (ids, mn)
  | a :: rest =>
      v <- getLastId a c ;;
      read_lastIds c rest (map_set ids a v) (if v <? mn then v else mn)
  end.

(** The cursor-writing loop over [accountMaxIds]. *)
Fixpoint write_maxIds (c : Currency) (l : list (string * Z)) : M unit :=
  match l with
  | [] => ret tt
  | (a, m) :: rest => setLastId a c m ;;; write_maxIds c rest
  end.

Definition hbd_select (accts : list string) (minLastId : Z) : M (list HbdRow) :=
  call OHbdQuery ;;; e <- askE ;; ret (hbd_query (ledger e) accts minLastId).

Definition hbd_transfer (row : HbdRow) (r : RestaurantConfig) (t : Z) : Transfer :=
  {| t_id := h_id row; t_restaurant_id := rc_id r; t_account := h_to row;
     t_from_account := h_from row; t_amount := h_amount row; t_symbol := HBD;
     t_memo := h_memo row; t_parsed_memo := h_memo row; t_received_at := t;
     t_block_num := None |}.

(** The [for (const row of result.rows)] loop of [pollHBDBatched], with
    [allTransfers] and [accountMaxIds] as accumulators. *)
Fixpoint hbd_scan (ctx : Context) (lastIds : list (string * Z)) (t : Z)
    (rows : list HbdRow) (acc : list Transfer) (maxIds : list (string * Z))
    : list Transfer * list (string * Z) :=
  match rows with
  | [] => (acc, maxIds)
  | row :: rest =>
      match map_get ctx (h_to row) with
      | None => hbd_scan ctx lastIds t rest acc maxIds
      | Some (restaurant, _) =>
          if h_id row <=? get_or0 lastIds (h_to row)
          then hbd_scan ctx lastIds t rest acc maxIds
          else if negb (includes (h_memo row) (memo_pattern restaurant HBD))
          then hbd_scan ctx lastIds t rest acc maxIds
          else
            let maxIds' :=
              if get_or0 maxIds (h_to row) <? h_id row
              then map_set maxIds (h_to row) (h_id row) else maxIds in
            hbd_scan ctx lastIds t rest (acc ++ [hbd_transfer row restaurant t])%list maxIds'
      end
  end.

Definition pollHBDBatched (allAccounts : list string) (ctx : Context) : M (list Transfer) :=
  match allAccounts with
  | [] => ret []
  | _ =>
      lm <- read_lastIds HBD allAccounts [] MAX_SAFE_INTEGER ;;
      let '(lastIds, minLastId) := lm in
      rows <- hbd_select allAccounts minLastId ;;
      e <- askE ;;
      let '(ts, maxIds) := hbd_scan ctx lastIds (now e) rows [] [] in
      write_maxIds HBD maxIds ;;;
      ret ts
  end.

(** [blockQuery.rows[0]?.block_num || 101140000]. *)
Definition current_block (head : option Z) : Z :=
  match head with
  | Some b => if b =? 0 then 101140000 else b
  | None => 101140000
  end.

Definition head_select (sym : Currency) : M (option Z) :=
  call (OBlockQuery sym) ;;; e <- askE ;; ret (head_query (ledger e)).

Definition cj_select (sym : Currency) (lo hi minLastId : Z) : M (list CjRow) :=
  call (OCjQuery sym) ;;; e <- askE ;; ret (cj_query (ledger e) lo hi minLastId).

(** [typeof memoRaw === 'string' ? memoRaw : (memoRaw ? JSON.stringify(memoRaw) : '')]. *)
Definition memo_string (m : MemoRaw) : string :=
  match m with MemoStr s => s | MemoJson s => s | MemoFalsy => "" end.

Definition opt_str_eqb (o : option string) (s : string) : bool :=
  match o with Some x => String.eqb x s | None => false end.

(** [x || d] on an optional string. *)
Definition str_or (o : option string) (d : string) : string :=
  match o with Some x => if String.eqb x "" then d else x | None => d end.

(** [from_account] from [required_auths]. *)
Definition from_auths (a : option (list string)) : string :=
  match a with Some (x :: _) => x | _ => "unknown" end.

Definition he_transfer (sym : Currency) (row : CjRow) (to : string)
    (r : RestaurantConfig) (p : Payload) : Transfer :=
  {| t_id := cj_id row; t_restaurant_id := rc_id r; t_account := to;
     t_from_account := from_auths (cj_auths row);
     t_amount := str_or (p_quantity p) "0"; t_symbol := sym;
     t_memo := memo_string (p_memo p); t_parsed_memo := memo_string (p_memo p);
     t_received_at := cj_timestamp row; t_block_num := Some (cj_block row) |}.

(** The row loop of [pollHiveEngineTokenBatched]; [None] when reading a
    property of a [null] JSON value throws out of the loop. *)
Fixpoint he_scan (sym : Currency) (ctx : Context) (lastIds : list (string * Z))
    (rows : list CjRow) (acc : list Transfer) (maxIds : list (string * Z))
    : option (list Transfer * list (string * Z)) :=
  match rows with
  | [] => Some (acc, maxIds)
  | row :: rest =>
      match cj_json row with
      | JParseError => he_scan sym ctx lastIds rest acc maxIds
      | JNull => None
      | JObject j =>
          match contractPayload j with
          | Some p =>
              if opt_str_eqb (contractName j) "tokens"
                 && opt_str_eqb (contractAction j) "transfer"
                 && opt_str_eqb (p_symbol p) (currency_str sym)
              then
                match p_to p with
                | Some to =>
                    match (if String.eqb to "" then None else map_get ctx to) with
                    | Some (restaurant, _) =>
                        if cj_id row <=? get_or0 lastIds to
                        then he_scan sym ctx lastIds rest acc maxIds
                        else if negb (includes (memo_string (p_memo p)) (memo_pattern restaurant sym))
                        then he_scan sym ctx lastIds rest acc maxIds
                        else
                          let maxIds' :=
                            if get_or0 maxIds to <? cj_id row
                            then map_set maxIds to (cj_id row) else maxIds in
                          he_scan sym ctx lastIds rest
                            (acc ++ [he_transfer sym row to restaurant p])%list maxIds'
                    | None => he_scan sym ctx lastIds rest acc maxIds
                    end
                | None => he_scan sym ctx lastIds rest acc maxIds
                end
              else he_scan sym ctx lastIds rest acc maxIds
          | None => he_scan sym ctx lastIds rest acc maxIds
          end
      end
  end.

Definition pollHiveEngineTokenBatched (sym : Currency) (allAccounts : list string)
    (ctx : Context) : M (list Transfer) :=
  match allAccounts with
  | [] => ret []
  | _ =>
      lm <- read_lastIds sym allAccounts [] MAX_SAFE_INTEGER ;;
      let '(lastIds, minLastId) := lm in
      call (OConnect sym) ;;;
      call (OSession sym 0) ;;;
      call (OSession sym 1) ;;;
      head <- head_select sym ;;
      let currentBlock := current_block head in
      let startBlock := currentBlock - 10000 in
      rows <- cj_select sym startBlock currentBlock minLastId ;;
      match rows with
      | [] => ret []
      | _ =>
          match he_scan sym ctx lastIds rows [] [] with
          | None => throw
          | Some (ts, maxIds) => write_maxIds sym maxIds ;;; ret ts
          end
      end
  end.

Fixpoint publish_all (ts : list Transfer) : M unit :=
  match ts with
  | [] => ret tt
  | t :: ts' => publishTransfer (t_restaurant_id t) t ;;; publish_all ts'
  end.

(** [pollAllTransfers] over a configuration: HBD, EURO, OCLT, then publish;
    the [try/catch] swallows any error and returns what [allTransfers]
    holds at that point. *)
Definition pollAllTransfers_with (rs : list RestaurantConfig) : M (list Transfer) :=
  let configs := getAllAccounts rs in
  let ctx := build_ctx configs [] in
  let accts := accountList configs in
  fun e s =>
    match pollHBDBatched accts ctx e s with
    | (None, s1) => (Some [], s1)
    | (Some h, s1) =>
        match pollHiveEngineTokenBatched EURO accts ctx e s1 with
        | (None, s2) => (Some h, s2)
        | (Some eu, s2) =>
            match pollHiveEngineTokenBatched OCLT accts ctx e s2 with
            | (None, s3) => (Some (h ++ eu)%list, s3)
            | (Some oc, s3) =>
                let all := (h ++ eu ++ oc)%list in
                let '(_, s4) := publish_all all e s3 in (Some all, s4)
            end
        end
    end.

Definition pollAllTransfers : M (list Transfer) := pollAllTransfers_with RESTAURANTS.

(** Repeated polling cycles, one environment per cycle. *)
Definition run_cycles (rs : list RestaurantConfig) (es : list Env) (s : Store) : Store :=
  fold_left (fun s e => snd (pollAllTransfers_with rs e s)) es s.

(* ------------------------------------------------------------------ *)
(** ** Lease, heartbeat and mode ([src/lib/redis.ts], wake-up and
       heartbeat routes) *)

Inductive Mode := Active6s | Sleeping1min.

(** The keys [polling:poller] (holder and expiry instant, in ms),
    [polling:heartbeat] and [polling:mode]. *)
Record CoordStore := {
  poller : option (string * Z);
  heartbeat : option Z;
  mode : option Mode
}.

Definition HEARTBEAT_TIMEOUT : Z := 15000.
(** [POLLER_LOCK_TTL] (30 s), in ms. *)
Definition POLLER_LOCK_TTL_MS : Z := 30000.

(** [GET polling:poller] at instant [t]: an expired key reads as absent. *)
Definition getPoller (st : CoordStore) (t : Z) : option string :=
  match poller st with
  | Some (id, exp) => if t <? exp then Some id else None
  | None => None
  end.

(** [attemptTakeoverAsPoller]: [SET polling:poller shopId NX EX 30],
    one atomic Redis command. *)
Definition attemptTakeoverAsPoller (shopId : string) (t : Z) (st : CoordStore)
    : bool * CoordStore :=
  match getPoller st t with
  | Some _ => (false, st)
  | None => (true, {| poller := Some (shopId, t + POLLER_LOCK_TTL_MS);
                      heartbeat := heartbeat st; mode := mode st |})
  end.

(** A sequence of takeover attempts, in the order Redis serialises them. *)
Fixpoint run_takeovers (calls : list (string * Z)) (st : CoordStore)
    : list bool * CoordStore :=
  match calls with
  | [] => ([], st)
  | (id, t) :: rest =>
      let '(b, st1) := attemptTakeoverAsPoller id t st in
      let '(bs, st2) := run_takeovers rest st1 in (b :: bs, st2)
  end.

(** [refreshPollerLock(shopId)]: [EXPIRE polling:poller 30]; [shopId] is
    not used. *)
Definition refreshPollerLock (shopId : string) (t : Z) (st : CoordStore) : CoordStore :=
  match poller st with
  | Some (id, exp) =>
      if t <? exp
      then {| poller := Some (id, t + POLLER_LOCK_TTL_MS);
              heartbeat := heartbeat st; mode := mode st |}
      else st
  | None => st
  end.

(** [getMode]: [GET polling:mode]. *)
Definition getMode (st : CoordStore) : option Mode := mode st.

Record HeartbeatResp := {
  isActive : bool;
  hr_heartbeat : option Z;
  hr_poller : option string;
  hr_mode : option Mode;
  timeSinceLastPoll : option Z
}.

(** [GET /api/heartbeat]: [isActive = heartbeat && (now - heartbeat <
    HEARTBEAT_TIMEOUT)] (a falsy heartbeat, null or 0, is inactive). *)
Definition heartbeat_GET (st : CoordStore) (t : Z) : HeartbeatResp :=
  let hb := match heartbeat st with Some h => if h =? 0 then None else Some h | None => None end in
  {| isActive := match hb with Some h => t - h <? HEARTBEAT_TIMEOUT | None => false end;
     hr_heartbeat := heartbeat st;
     hr_poller := getPoller st t;
     hr_mode := getMode st;
     timeSinceLastPoll := match hb with Some h => Some (t - h) | None => None end |}.

(* ------------------------------------------------------------------ *)
(** ** Transfer stream and consumer group (consume and ack routes)

    One stream [transfers:<restaurantId>] and its consumer group, with the
    Redis semantics of the commands the routes issue.  Entry ids are
    totally ordered; they are written as integers. *)

Record Entry := { e_id : Z; e_fields : list (string * string) }.

(** A pending-entries-list record: entry, owner, last delivery, count. *)
Record PelEntry := { pe_id : Z; pe_consumer : string; pe_time : Z; pe_count : nat }.

Record Group := { last_delivered : Z; pel : list PelEntry }.

Record StreamStore := { entries : list Entry; group : option Group }.

(** [XGROUP CREATE key group 0 MKSTREAM], a [BUSYGROUP] error ignored. *)
Definition xgroup_create (st : StreamStore) : StreamStore :=
  match group st with
  | Some _ => st
  | None => {| entries := entries st; group := Some {| last_delivered := 0; pel := [] |} |}
  end.

Definition take_count {A} (count : nat) (l : list A) : list A :=
  match count with O => l | _ => firstn count l end.

Definition last_id (l : list Entry) (d : Z) : Z :=
  fold_left (fun _ en => e_id en) l d.

(** [XREADGROUP GROUP g consumer COUNT n STREAMS key >]: [None] is the
    null reply. *)
Definition xreadgroup (consumer : string) (count : nat) (t : Z) (st : StreamStore)
    : option (list Entry) * StreamStore :=
  match group st with
  | None => (None, st)
  | Some g =>
      let fresh := take_count count (filter (fun en => last_delivered g <? e_id en) (entries st)) in
      match fresh with
      | [] => (None, st)
      | _ =>
          (Some fresh,
           {| entries := entries st;
              group := Some {| last_delivered := last_id fresh (last_delivered g);
                               pel := (pel g ++ map (fun en => {| pe_id := e_id en;
                                   pe_consumer := consumer; pe_time := t; pe_count := 1 |}) fresh)%list |} |})
      end
  end.

Definition find_entry (es : list Entry) (id : Z) : option Entry :=
  find (fun en => e_id en =? id) es.

(** The scan of [XAUTOCLAIM key g consumer min-idle start COUNT n]:
    at most [attempts] PEL records are examined from [start]; a record
    idle for at least [minidle] is claimed (its entry exists) or dropped
    (its entry was deleted).  Returns the new PEL and the claimed entries. *)
Fixpoint autoclaim_scan (es : list Entry) (consumer : string) (minidle t start : Z)
    (attempts count : nat) (p : list PelEntry) : list PelEntry * list Entry :=
  match p with
  | [] => ([], [])
  | pe :: rest =>
      if pe_id pe <? start then
        let '(p', cl) := autoclaim_scan es consumer minidle t start attempts count rest in
        (pe :: p', cl)
      else
        match attempts, count with
        | O, _ | _, O => (p, [])
        | S attempts', S count' =>
            if t - pe_time pe <? minidle then
              let '(p', cl) := autoclaim_scan es consumer minidle t start attempts' count rest in
              (pe :: p', cl)
            else
              match find_entry es (pe_id pe) with
              | Some en =>
                  let '(p', cl) := autoclaim_scan es consumer minidle t start attempts' count' rest in
                  ({| pe_id := pe_id pe; pe_consumer := consumer; pe_time := t;
                      pe_count := S (pe_count pe) |} :: p', en :: cl)
              | None => autoclaim_scan es consumer minidle t start attempts' count rest
              end
        end
  end.

(** [XAUTOCLAIM]: [None] is an error reply ([COUNT] must be positive). *)
Definition xautoclaim (consumer : string) (minidle start : Z) (count : nat) (t : Z)
    (st : StreamStore) : option (list Entry) * StreamStore :=
  match group st, count with
  | None, _ => (None, st)
  | _, O => (None, st)
  | Some g, S _ =>
      let '(p', cl) := autoclaim_scan (entries st) consumer minidle t start (count * 10) count (pel g) in
      (Some cl, {| entries := entries st;
                   group := Some {| last_delivered := last_delivered g; pel := p' |} |})
  end.

(** [XPENDING key group] (summary form): number of pending entries. *)
Definition xpending (st : StreamStore) : nat :=
  match group st with Some g => length (pel g) | None => 0 end.

Inductive ConsumeResp :=
| Delivered (es : list Entry)
| NothingNew (pending : nat).

Definition MIN_IDLE_TIME : Z := 10000.

(** [GET /api/transfers/consume] (the version with [XAUTOCLAIM]). *)
Definition consume_GET (consumerId : string) (count : nat) (t : Z) (st0 : StreamStore)
    : ConsumeResp * StreamStore :=
  let st1 := xgroup_create st0 in
  match xreadgroup consumerId count t st1 with
  | (Some es, st2) => (Delivered es, st2)
  | (None, st2) =>
      match xautoclaim consumerId MIN_IDLE_TIME 0 count t st2 with
      | (Some ((_ :: _) as cl), st3) => (Delivered cl, st3)
      | (_, st3) => (NothingNew (xpending st3), st3)
      end
  end.

(** [XACK key group id] for one id: 1 if it was pending (and is removed),
    else 0. *)
Definition xack1 (id : Z) (st : StreamStore) : nat * StreamStore :=
  match group st with
  | None => (0%nat, st)
  | Some g =>
      if existsb (fun pe => pe_id pe =? id) (pel g)
      then (1%nat, {| entries := entries st;
                      group := Some {| last_delivered := last_delivered g;
                                       pel := filter (fun pe => negb (pe_id pe =? id)) (pel g) |} |})
      else (0%nat, st)
  end.

Inductive AckResp :=
| AckBadRequest (msg : string)
| AckOk (acknowledged total : nat).

(** The [for (const msgId of messageIds)] loop: [ackCount += xack(...)]. *)
Fixpoint ack_loop (ids : list Z) (acc : nat) (st : StreamStore) : nat * StreamStore :=
  match ids with
  | [] => (acc, st)
  | id :: rest => let '(r, st1) := xack1 id st in ack_loop rest (acc + r)%nat st1
  end.

(** [POST /api/transfers/ack] (one [XACK] per id). *)
Definition ack_POST (restaurantId : string) (messageIds : list Z) (st : StreamStore)
    : AckResp * StreamStore :=
  if String.eqb restaurantId "" then (AckBadRequest "restaurantId is required", st)
  else match messageIds with
       | [] => (AckBadRequest "messageIds array is required", st)
       | _ => let '(n, st1) := ack_loop messageIds 0 st in (AckOk n (length messageIds), st1)
       end.

(** [XACK key group id1 id2 ...]: Redis acknowledges the ids one after
    the other and replies with the number removed. *)
Definition xack_multi (ids : list Z) (st : StreamStore) : nat * StreamStore :=
  fold_left (fun '(n, s) id => let '(r, s') := xack1 id s in ((n + r)%nat, s')) ids (0%nat, st).

(** [POST /api/transfers/ack] (one [XACK] with all ids). *)
Definition ack_POST_batch (restaurantId : string) (messageIds : list Z) (st : StreamStore)
    : AckResp * StreamStore :=
  if String.eqb restaurantId "" then (AckBadRequest "restaurantId is required", st)
  else match messageIds with
       | [] => (AckBadRequest "messageIds array is required", st)
       | _ => let '(n, st1) := xack_multi messageIds st in (AckOk n (length messageIds), st1)
       end.

(* ------------------------------------------------------------------ *)
(** ** Concrete inputs of the scenarios *)

Definition all_configs : list AccountConfig := getAllAccounts RESTAURANTS.
Definition all_accounts : list string := accountList all_configs.
Definition all_ctx : Context := build_ctx all_configs [].

Definition no_ledger : Ledger :=
  {| hbd_query := fun _ _ => []; head_query := None; cj_query := fun _ _ _ => [] |}.

Definition hbd_row (i : Z) (to memo : string) : HbdRow :=
  {| h_id := i; h_to := to; h_from := "payer"; h_amount := "1.000";
     h_symbol := "HBD"; h_memo := memo |}.

(** Rows [106] (to an unknown address) and [105, 104, 103] (to
    [indies.cafe], memo matching [%TABLE %]), in the query's descending
    order. *)
Definition scenario_rows : list HbdRow :=
  [hbd_row 106 "unknown.acct" "TABLE 4"; hbd_row 105 "indies.cafe" "TABLE 7";
   hbd_row 104 "indies.cafe" "TABLE 7"; hbd_row 103 "indies.cafe" "TABLE 7"].

(** A store where [indies.cafe] has HBD cursor [c] and nothing else is set. *)
Definition store_with (c : Z) : Store :=
  {| kv := fun k => if String.eqb k (lastId_key "indies.cafe" HBD) then Some c else None;
     published := [] |}.

(** An environment in which nothing fails and the ledger is empty. *)
Definition quiet_env : Env := {| ledger := no_ledger; fails := fun _ => false; now := 0 |}.

(** The HBD query returns one new transfer to [indies.cafe], then the
    connection for the EURO query fails. *)
Definition euro_down_env : Env :=
  {| ledger := {| hbd_query := fun _ _ => [hbd_row 105 "indies.cafe" "TABLE 7"];
                  head_query := None; cj_query := fun _ _ _ => [] |};
     fails := fun o => match o with OConnect EURO => true | _ => false end;
     now := 0 |}.

(** A ledger answering only rows at or below every cursor of [store_with 100]. *)
Definition stale_env : Env :=
  {| ledger := {| hbd_query := fun _ _ => [hbd_row 100 "indies.cafe" "TABLE 7"];
                  head_query := Some 120000;
                  cj_query := fun _ _ _ => [] |};
     fails := fun _ => false; now := 0 |}.

Definition euro_payload (to : string) : Payload :=
  {| p_symbol := Some "EURO"; p_to := Some to; p_memo := MemoStr "TABLE 3";
     p_quantity := Some "2.50" |}.

Definition euro_row (id block : Z) : CjRow :=
  {| cj_id := id; cj_timestamp := 0; cj_auths := Some ["payer"];
     cj_json := JObject {| contractName := Some "tokens"; contractAction := Some "transfer";
                           contractPayload := Some (euro_payload "indies.cafe") |};
     cj_block := block; cj_custom_id := "ssc-mainnet-hive" |}.

(** Head block 120000; one EURO transfer inside the trailing window and
    one far below it. *)
Definition window_blocks : list Z := [110000; 120000].
Definition window_cjs : list CjRow := [euro_row 7 115000; euro_row 9 100].

(** The lease held by [indies] until [10000]; nothing else stored. *)
Definition held_by_indies : CoordStore :=
  {| poller := Some ("indies", 10000); heartbeat := None; mode := None |}.

(** No lease, a heartbeat at [1000] and the mode [active-6s] stored. *)
Definition mode_without_lease : CoordStore :=
  {| poller := None; heartbeat := Some 1000; mode := Some Active6s |}.

Definition entry (i : Z) : Entry := {| e_id := i; e_fields := [] |}.


(* ------------------------------------------------------------------ *)
(** ** Further definitions: cursors covered, the polling-state hash, the
    routes, CORS and the consume route *)

Definition covered (maxIds : list (string * Z)) (acc : list Transfer) : Prop :=
  forall x, In x acc -> exists m, map_get maxIds (t_account x) = Some m /\ t_id x <= m.

Definition keys_nodup {V} (m : list (string * V)) : Prop := NoDup (map fst m).

(** What the Hive-Engine loop accepts. *)
Definition he_accepts (sym : Currency) (ctx : Context) (row : CjRow) (x : Transfer) : Prop :=
  exists j p to r k,
    cj_json row = JObject j /\ contractPayload j = Some p /\
    contractName j = Some "tokens" /\ contractAction j = Some "transfer" /\
    p_symbol p = Some (currency_str sym) /\ p_to p = Some to /\
    map_get ctx to = Some (r, k) /\ x = he_transfer sym row to r p /\
    includes (memo_string (p_memo p)) (memo_pattern r sym) = true.

(** What the HBD loop accepts. *)
Definition hbd_accepts (ctx : Context) (t : Z) (row : HbdRow) (x : Transfer) : Prop :=
  exists r k, map_get ctx (h_to row) = Some (r, k) /\ x = hbd_transfer row r t /\
              includes (h_memo row) (memo_pattern r HBD) = true.

(** ** JavaScript [String(n)] and [parseInt(s, 10)] on integers *)

Definition digit_char (d : Z) : ascii := ascii_of_nat (48 + Z.to_nat d).

Fixpoint dec_digits (fuel : nat) (n : Z) (acc : string) : string :=
  match fuel with
  | O => acc
  | S f => if n <? 10 then String (digit_char n) acc
           else dec_digits f (n / 10) (String (digit_char (n mod 10)) acc)
  end.

(** [String(n)] for an integer [n] of magnitude at most
    [Number.MAX_SAFE_INTEGER] (plain decimal, [-] when negative). *)
Definition js_String (n : Z) : string :=
  if n <? 0 then "-" ++ dec_digits (S (Z.to_nat (Z.log2 (- n)))) (- n) ""
  else dec_digits (S (Z.to_nat (Z.log2 n))) n "".

Definition digit_val (c : ascii) : option Z :=
  let k := nat_of_ascii c in
  if andb (48 <=? k)%nat (k <=? 57)%nat then Some (Z.of_nat k - 48) else None.

(** The value of the longest prefix of decimal digits. *)
Fixpoint digits_prefix (s : string) (acc : Z) : Z :=
  match s with
  | EmptyString => acc
  | String c r => match digit_val c with
                  | Some d => digits_prefix r (acc * 10 + d)
                  | None => acc
                  end
  end.

Definition is_js_space (c : ascii) : bool :=
  match nat_of_ascii c with 9 | 10 | 11 | 12 | 13 | 32 => true | _ => false end%nat.

Fixpoint trim_start (s : string) : string :=
  match s with
  | String c r => if is_js_space c then trim_start r else s
  | EmptyString => EmptyString
  end.

(** A JavaScript number that is [null], [NaN] or an integer. *)
Inductive NumOrNull := NNull | NNaN | NNum (z : Z).

(** [parseInt(s, 10)]: leading white space, an optional sign, then the
    longest run of digits; [NaN] when there is none. *)
Definition parseInt10 (s : string) : NumOrNull :=
  let s1 := trim_start s in
  let '(neg, s2) := match s1 with
                    | String "-" r => (true, r)
                    | String "+" r => (false, r)
                    | _ => (false, s1)
                    end in
  match s2 with
  | String c _ => match digit_val c with
                  | Some _ => NNum (if neg then - digits_prefix s2 0 else digits_prefix s2 0)
                  | None => NNaN
                  end
  | EmptyString => NNaN
  end.

(** ** The [polling:state] hash ([src/lib/redis.ts], hash section) *)

Definition Hash := list (string * string).

(** A value passed to [updatePollingState]: [string | number]. *)
Inductive HVal := HStr (s : string) | HNum (n : Z).

Definition hval_string (v : HVal) : string :=
  match v with HStr s => s | HNum n => js_String n end.

(** [HMSET polling:state k1 v1 k2 v2 ...]. *)
Fixpoint hmset (h : Hash) (fields : list (string * string)) : Hash :=
  match fields with
  | [] => h
  | (k, v) :: rest => hmset (map_set h k v) rest
  end.

Definition updatePollingState (updates : list (string * HVal)) (h : Hash) : Hash :=
  match updates with
  | [] => h
  | _ => hmset h (map (fun kv => (fst kv, hval_string (snd kv))) updates)
  end.

(** A value of the object [redis.hgetall] returns: the SDK decodes each
    stored string (with [JSON.parse] when it reads as a safe integer or
    another JSON value, keeping the string otherwise), so a field may hold
    a number, a boolean, [null], a string, or an object or array (kept
    with its [String] rendering). *)
Inductive JVal := JNum (z : Z) | JBool (b : bool) | JNullV | JStr (s : string)
                | JCompound (rendering : string).

(** JavaScript truthiness. *)
Definition js_truthy (v : JVal) : bool :=
  match v with
  | JNum z => negb (z =? 0)
  | JBool b => b
  | JNullV => false
  | JStr s => negb (String.eqb s "")
  | JCompound _ => true
  end.

(** [String(v)]. *)
Definition js_to_string (v : JVal) : string :=
  match v with
  | JNum z => js_String z
  | JBool true => "true"
  | JBool false => "false"
  | JNullV => "null"
  | JStr s => s
  | JCompound r => r
  end.

Definition PollingState := list (string * JVal).

(** The SDK's decoding on the strings this code stores (the [String] of
    a safe integer, shop ids, mode names, cursor ids): a canonical safe
    integer, [true], [false] and [null] are parsed as JSON, anything else
    is kept as the string. *)
Definition upstash_decode (v : string) : JVal :=
  if String.eqb v "true" then JBool true
  else if String.eqb v "false" then JBool false
  else if String.eqb v "null" then JNullV
  else match parseInt10 v with
       | NNum n => if (Z.abs n <=? MAX_SAFE_INTEGER) && String.eqb (js_String n) v
                   then JNum n else JStr v
       | _ => JStr v
       end.

(** [getPollingState]: [HGETALL polling:state], each value decoded by
    the SDK's [decode]; [state || {}] (an empty hash is [{}]). *)
Definition getPollingState (decode : string -> JVal) (h : Hash) : PollingState :=
  map (fun kv => (fst kv, decode (snd kv))) h.

(** [if (!state.heartbeat) return null; return parseInt(state.heartbeat, 10)]. *)
Definition getHeartbeatFromState (st : PollingState) : NumOrNull :=
  match map_get st "heartbeat" with
  | Some v => if js_truthy v then parseInt10 (js_to_string v) else NNull
  | None => NNull
  end.

(** [state.poller || null]. *)
Definition getPollerFromState (st : PollingState) : option JVal :=
  match map_get st "poller" with
  | Some v => if js_truthy v then Some v else None
  | None => None
  end.

(** [(state.mode as ...) || null]. *)
Definition getModeFromState (st : PollingState) : option JVal :=
  match map_get st "mode" with
  | Some v => if js_truthy v then Some v else None
  | None => None
  end.

(** [state[`${account}:${currency}`] || '0']. *)
Definition getLastIdFromState (st : PollingState) (account currency : string) : JVal :=
  match map_get st (account ++ ":" ++ currency) with
  | Some v => if js_truthy v then v else JStr "0"
  | None => JStr "0"
  end.

Definition buildLastIdUpdate (account currency id : string) : list (string * HVal) :=
  [(account ++ ":" ++ currency, HStr id)].

(** [refreshPollerLockV2]: the same [EXPIRE polling:poller 30]. *)
Definition refreshPollerLockV2 (shopId : string) (t : Z) (st : CoordStore) : CoordStore :=
  refreshPollerLock shopId t st.

(** [heartbeat && (now - heartbeat < HEARTBEAT_TIMEOUT)] on a number. *)
Definition fresh_num (hb : NumOrNull) (t : Z) : bool :=
  match hb with
  | NNum h => if h =? 0 then false else t - h <? HEARTBEAT_TIMEOUT
  | _ => false
  end.

(** ** The routes over one Redis instance *)

(** An entry of the [system:broadcasts] stream. *)
Record Broadcast := {
  b_type : string;
  b_poller : option string;
  b_mode : option Mode;
  b_timestamp : Z
}.

(** The keys the routes use: the lease, [polling:heartbeat] and
    [polling:mode]; the [polling:state] hash; the [system:broadcasts]
    stream; the cursors and transfer streams of the polling cycle. *)
Record Redis := {
  coordR : CoordStore;
  hashR : Hash;
  bcastR : list Broadcast;
  storeR : Store
}.

(** [setMode]: [SET polling:mode]. *)
Definition setMode (m : Mode) (st : CoordStore) : CoordStore :=
  {| poller := poller st; heartbeat := heartbeat st; mode := Some m |}.

Definition TAKEOVER_DELAY_MAX : Z := 1000.

(** [heartbeat && (now - heartbeat < HEARTBEAT_TIMEOUT)] on the value of
    [polling:heartbeat]. *)
Definition heartbeat_fresh (hb : option Z) (t : Z) : bool :=
  match hb with
  | Some h => if h =? 0 then false else t - h <? HEARTBEAT_TIMEOUT
  | None => false
  end.

Inductive WakeResp :=
| WBadRequest                                   (** 400, [shopId is required] *)
| WAlreadyActive (poller : string) (hb : option Z)
| WBecamePoller (poller : string) (delay : Z)
| WLostRace (newPoller : option string) (delay : Z).

(** [POST /api/wake-up] with body [{ shopId }] ([shopId] falsy when
    empty): [t] is [Date.now()] after the two reads, [delay] the random
    delay; the takeover and the final [getPoller] happen at [t + delay]. *)
Definition wakeup_POST (shopId : string) (t delay : Z) (r : Redis) : WakeResp * Redis :=
  if String.eqb shopId "" then (WBadRequest, r) else
  let hb := heartbeat (coordR r) in
  let currentPoller := getPoller (coordR r) t in
  match heartbeat_fresh hb t, currentPoller with
  | true, Some p => (WAlreadyActive p hb, r)
  | _, _ =>
      let t' := t + delay in
      let '(won, c1) := attemptTakeoverAsPoller shopId t' (coordR r) in
      if won then
        (WBecamePoller shopId delay,
         {| coordR := setMode Active6s c1; hashR := hashR r;
            bcastR := (bcastR r ++
              [{| b_type := "polling-started"; b_poller := Some shopId;
                  b_mode := Some Active6s; b_timestamp := t |}])%list;
            storeR := storeR r |})
      else (WLostRace (getPoller c1 t') delay,
            {| coordR := c1; hashR := hashR r; bcastR := bcastR r; storeR := storeR r |})
  end.

Section Routes.

(** The value decoding of the SDK's [hgetall]. *)
Variable decode : string -> JVal.

Record PollResp := { pr_found : nat; pr_poller : option JVal; pr_timestamp : Z }.

(** [GET /api/poll] (hash version): [t] is the [Date.now()] taken after
    the cycle; [None] is the 500 answer of the [catch]. *)
Definition poll_GET (t : Z) (e : Env) (r : Redis) : option PollResp * Redis :=
  let currentPoller := getPollerFromState (getPollingState decode (hashR r)) in
  match pollAllTransfers e (storeR r) with
  | (Some transfers, s') =>
      let h' := updatePollingState [("heartbeat", HNum t)] (hashR r) in
      let c' := match currentPoller with
                | Some p => refreshPollerLockV2 (js_to_string p) t (coordR r)
                | None => coordR r
                end in
      (Some {| pr_found := length transfers; pr_poller := currentPoller; pr_timestamp := t |},
       {| coordR := c'; hashR := h'; bcastR := bcastR r; storeR := s' |})
  | (None, s') => (None, {| coordR := coordR r; hashR := hashR r; bcastR := bcastR r; storeR := s' |})
  end.

Inductive CronResp :=
| CronSkipped (hb : NumOrNull)     (** [action: 'skipped'] *)
| CronPolled (found : nat)         (** [action: 'polled'] *)
| CronError.                       (** 500 *)

(** [GET /api/cron-poll] at instant [t]. *)
Definition cron_GET (t : Z) (e : Env) (r : Redis) : CronResp * Redis :=
  let hb := getHeartbeatFromState (getPollingState decode (hashR r)) in
  if fresh_num hb t then (CronSkipped hb, r) else
  let h' := updatePollingState [("mode", HStr "sleeping-1min"); ("heartbeat", HNum t)] (hashR r) in
  let b' := (bcastR r ++ [{| b_type := "all-sleeping"; b_poller := None;
                             b_mode := Some Sleeping1min; b_timestamp := t |}])%list in
  match pollAllTransfers e (storeR r) with
  | (Some transfers, s') =>
      (CronPolled (length transfers), {| coordR := coordR r; hashR := h'; bcastR := b'; storeR := s' |})
  | (None, s') => (CronError, {| coordR := coordR r; hashR := h'; bcastR := b'; storeR := s' |})
  end.

Record StatusPolling := {
  sp_heartbeat : NumOrNull;
  sp_isActive : bool;
  sp_poller : option JVal;
  sp_mode : option JVal;
  sp_timeSinceLastPoll : option Z
}.

(** The [polling] part of [GET /api/status] over the hash [h]:
    [isActive: heartbeat !== null && (now - heartbeat) < HEARTBEAT_TIMEOUT]. *)
Definition status_polling (h : Hash) (t : Z) : StatusPolling :=
  let st := getPollingState decode h in
  let hb := getHeartbeatFromState st in
  {| sp_heartbeat := hb;
     sp_isActive := match hb with NNum x => t - x <? HEARTBEAT_TIMEOUT | _ => false end;
     sp_poller := getPollerFromState st;
     sp_mode := getModeFromState st;
     sp_timeSinceLastPoll := match hb with NNum x => if x =? 0 then None else Some (t - x)
                                           | _ => None end |}.

(** One request to a route that writes state. *)
Inductive Call :=
| CWake (shopId : string) (t delay : Z)
| CPoll (t : Z) (e : Env)
| CCron (t : Z) (e : Env).

Definition step (c : Call) (r : Redis) : Redis :=
  match c with
  | CWake shopId t delay => snd (wakeup_POST shopId t delay r)
  | CPoll t e => snd (poll_GET t e r)
  | CCron t e => snd (cron_GET t e r)
  end.

Definition run_calls (cs : list Call) (r : Redis) : Redis :=
  fold_left (fun r c => step c r) cs r.

End Routes.

(** ** Origin checks ([src/lib/cors.ts] and the ack route) *)

(** [s.startsWith(p)], returning the rest. *)
Fixpoint strip_prefix (p s : string) : option string :=
  match p, s with
  | EmptyString, _ => Some s
  | String a p', String b s' => if Ascii.eqb a b then strip_prefix p' s' else None
  | _, _ => None
  end.

Definition is_digit (c : ascii) : bool :=
  match digit_val c with Some _ => true | None => false end.

Fixpoint skip_while (f : ascii -> bool) (s : string) : string :=
  match s with
  | String c r => if f c then skip_while f r else s
  | EmptyString => EmptyString
  end.

(** A greedy [X+]: at least one character of the class, then as many as
    possible; the rest of the input. *)
Definition plus_class (f : ascii -> bool) (s : string) : option string :=
  match s with
  | String c r => if f c then Some (skip_while f r) else None
  | EmptyString => None
  end.

(** [(:\d+)?$]. *)
Definition opt_port_end (s : string) : bool :=
  match s with
  | EmptyString => true
  | String ":" r => match plus_class is_digit r with Some EmptyString => true | _ => false end
  | _ => false
  end.

(** [/^http:\/\/localhost(:\d+)?$/] and [/^http:\/\/127\.0\.0\.1(:\d+)?$/]. *)
Definition re_host (host : string) (s : string) : bool :=
  match strip_prefix ("http://" ++ host) s with Some r => opt_port_end r | None => false end.

(** [(\d+\.)]{n} followed by [\d+(:\d+)?$]. *)
Fixpoint dotted_digits (n : nat) (s : string) : bool :=
  match plus_class is_digit s with
  | None => false
  | Some r => match n with
              | O => opt_port_end r
              | S n' => match r with String "." r' => dotted_digits n' r' | _ => false end
              end
  end.

(** [/^http:\/\/192\.168\.\d+\.\d+(:\d+)?$/] and [/^http:\/\/10\.\d+\.\d+\.\d+(:\d+)?$/]. *)
Definition re_net (prefix : string) (n : nat) (s : string) : bool :=
  match strip_prefix prefix s with Some r => dotted_digits n r | None => false end.

Definition devPattern_test (s : string) : bool :=
  re_host "localhost" s || re_host "127.0.0.1" s ||
  re_net "http://192.168." 1 s || re_net "http://10." 2 s.

Definition productionOrigins : list string :=
  ["https://indies.innopay.lu"; "https://croque-bedaine.innopay.lu"].

Fixpoint split_on (sep : ascii) (s : string) : list string :=
  match s with
  | EmptyString => [EmptyString]
  | String c r =>
      if Ascii.eqb c sep then EmptyString :: split_on sep r
      else match split_on sep r with
           | w :: ws => String c w :: ws
           | [] => [String c EmptyString]
           end
  end.

Definition js_trim (s : string) : string :=
  string_of_list_ascii (rev (list_ascii_of_string
    (trim_start (string_of_list_ascii (rev (list_ascii_of_string (trim_start s))))))).

(** [process.env.ALLOWED_ORIGINS?.split(',').map(o => o.trim()) || []]. *)
Definition customOrigins (env : option string) : list string :=
  match env with Some v => map js_trim (split_on "," v) | None => [] end.

Definition isOriginAllowed (env : option string) (origin : option string) : bool :=
  match origin with
  | None => false
  | Some o =>
      if String.eqb o "" then false
      else existsb (String.eqb o) (customOrigins env) ||
           existsb (String.eqb o) productionOrigins ||
           devPattern_test o
  end.

Definition getCorsHeaders (env : option string) (origin : option string) : list (string * string) :=
  ([("Access-Control-Allow-Methods", "GET, POST, PUT, DELETE, OPTIONS");
    ("Access-Control-Allow-Headers", "Content-Type, Authorization");
    ("Access-Control-Max-Age", "86400")] ++
   match origin with
   | Some o => if negb (String.eqb o "") && isOriginAllowed env origin
               then [("Access-Control-Allow-Origin", o); ("Access-Control-Allow-Credentials", "true")]
               else []
   | None => []
   end)%list.

(** ASCII case folding, as the [i] flag compares letters. *)
Definition lower (c : ascii) : ascii :=
  let n := nat_of_ascii c in
  if andb (65 <=? n)%nat (n <=? 90)%nat then ascii_of_nat (n + 32) else c.

Fixpoint lower_str (s : string) : string :=
  match s with String c r => String (lower c) (lower_str r) | EmptyString => EmptyString end.

Fixpoint strip_prefix_ci (p s : string) : option string :=
  match p, s with
  | EmptyString, _ => Some s
  | String a p', String b s' => if Ascii.eqb (lower a) (lower b) then strip_prefix_ci p' s' else None
  | _, _ => None
  end.

(** [[a-z0-9-]] under the [i] flag. *)
Definition is_label_char (c : ascii) : bool :=
  let n := nat_of_ascii (lower c) in
  (andb (97 <=? n)%nat (n <=? 122)%nat) || is_digit c || Ascii.eqb c "-".

(** [/^https:\/\/[a-z0-9-]+\.innopay\.lu$/i]. *)
Definition re_innopay (s : string) : bool :=
  match strip_prefix_ci "https://" s with
  | Some r => match plus_class is_label_char r with
              | Some r2 => match strip_prefix_ci ".innopay.lu" r2 with
                           | Some EmptyString => true
                           | _ => false
                           end
              | None => false
              end
  | None => false
  end.

(** [/^http:\/\/localhost(:\d+)?$/i]. *)
Definition re_localhost_ci (s : string) : bool :=
  match strip_prefix_ci "http://localhost" s with Some r => opt_port_end r | None => false end.

(** [/^http:\/\/192\.168\.\d+\.\d+(:\d+)?$/i]. *)
Definition re_192_ci (s : string) : bool :=
  match strip_prefix_ci "http://192.168." s with Some r => dotted_digits 1 r | None => false end.

(** [getCorsHeaders] of the ack route; [production] is
    [process.env.NODE_ENV === 'production']. *)
Definition ack_getCorsHeaders (production : bool) (origin : option string) : list (string * string) :=
  let o := match origin with Some s => s | None => "" end in
  if re_innopay o || re_localhost_ci o || re_192_ci o then
    [("Access-Control-Allow-Origin", o);
     ("Access-Control-Allow-Methods", "GET, POST, OPTIONS");
     ("Access-Control-Allow-Headers", "Content-Type, Authorization");
     ("Access-Control-Allow-Credentials", "true")]
  else if negb production then
    [("Access-Control-Allow-Origin", "*");
     ("Access-Control-Allow-Methods", "GET, POST, OPTIONS");
     ("Access-Control-Allow-Headers", "Content-Type, Authorization")]
  else [].

(** The field list of a stream entry as Redis returns it:
    [['field1', 'value1', 'field2', 'value2', ...]]. *)
Definition flatten_fields (kvs : list (string * string)) : list string :=
  flat_map (fun kv => [fst kv; snd kv]) kvs.

(** [obj[k] = v] on a plain object: assigning a string or [undefined] to
    [__proto__] runs the inherited [__proto__] setter, which ignores a
    value that is not an object or [null], so no own property is made;
    any other key becomes (or overwrites) an own property. The list holds
    the own properties, the ones [NextResponse.json] serializes. *)
Definition js_set (obj : list (string * option string)) (k : string) (v : option string)
    : list (string * option string) :=
  if String.eqb k "__proto__" then obj else map_set obj k v.

(** [for (let i = 0; i < fields.length; i += 2) obj[fields[i]] = fields[i + 1]];
    [None] is [undefined]. *)
Fixpoint assign_fields (obj : list (string * option string)) (fields : list string)
    : list (string * option string) :=
  match fields with
  | [] => obj
  | [k] => js_set obj k None
  | k :: v :: rest => assign_fields (js_set obj k (Some v)) rest
  end.

(** The object built for one entry by the consume route. *)
Definition entry_to_obj (messageId : string) (fields : list string) : list (string * option string) :=
  assign_fields [("messageId", Some messageId); ("streamId", Some messageId)] fields.

(* ------------------------------------------------------------------ *)
(** ** Sample environments and Redis states *)

(** The HBD query answers [scenario_rows]; nothing fails. *)
Definition scenario_env : Env :=
  {| ledger := {| hbd_query := fun _ _ => scenario_rows; head_query := None;
                  cj_query := fun _ _ _ => [] |};
     fails := fun _ => false; now := 0 |}.

(** As [scenario_env], with a newer row [107] to [indies.cafe]. *)
Definition scenario_env_107 : Env :=
  {| ledger := {| hbd_query := fun _ _ => hbd_row 107 "indies.cafe" "TABLE 7" :: scenario_rows;
                  head_query := None; cj_query := fun _ _ _ => [] |};
     fails := fun _ => false; now := 0 |}.

(** Head block [120000]; the custom_json query answers one EURO transfer. *)
Definition euro_env : Env :=
  {| ledger := {| hbd_query := fun _ _ => []; head_query := Some 120000;
                  cj_query := fun _ _ _ => [euro_row 7 115000] |};
     fails := fun _ => false; now := 0 |}.

(** The custom_json query answers a row whose [json] is [null]. *)
Definition null_json_env : Env :=
  {| ledger := {| hbd_query := fun _ _ => scenario_rows; head_query := Some 120000;
                  cj_query := fun _ _ _ =>
                    [{| cj_id := 8; cj_timestamp := 0; cj_auths := Some ["payer"];
                        cj_json := JNull; cj_block := 115000;
                        cj_custom_id := "ssc-mainnet-hive" |}] |};
     fails := fun _ => false; now := 0 |}.

(** The HBD transfer the detector builds from [hbd_row i "indies.cafe" "TABLE 7"]. *)
Definition indies_hbd (i : Z) : Transfer :=
  {| t_id := i; t_restaurant_id := "indies"; t_account := "indies.cafe";
     t_from_account := "payer"; t_amount := "1.000"; t_symbol := HBD;
     t_memo := "TABLE 7"; t_parsed_memo := "TABLE 7"; t_received_at := 0;
     t_block_num := None |}.

(** Nothing stored in Redis apart from the cursors of [store_with 100]. *)
Definition empty_redis : Redis :=
  {| coordR := {| poller := None; heartbeat := None; mode := None |};
     hashR := []; bcastR := []; storeR := store_with 100 |}.

(** As [empty_redis], with the lease of [held_by_indies]. *)
Definition indies_redis : Redis :=
  {| coordR := held_by_indies; hashR := []; bcastR := []; storeR := store_with 100 |}.

(* ------------------------------------------------------------------ *)
(** ** Failures before a detector's writes; the entries a reclaim returns *)

(** A failure that stops the detector for currency [c] before any of its
    writes: one of the cursor reads, the HBD query for HBD, and for a
    Hive-Engine token the connection, the session settings, the block
    query or the custom_json query. *)
Definition pre_write_fails (e : Env) (c : Currency) (accts : list string) : Prop :=
  (exists a, In a accts /\ fails e (OGet (lastId_key a c)) = true) \/
  match c with
  | HBD => fails e OHbdQuery = true
  | _ => fails e (OConnect c) = true \/ fails e (OSession c 0) = true \/
         fails e (OSession c 1) = true \/ fails e (OBlockQuery c) = true \/
         fails e (OCjQuery c) = true
  end.



(* ================================================================== *)
(** * Lemmas on the polling cycle *)

(** Cursors only go up from [s] to [s']. *)
Definition cursors_mono (s s' : Store) : Prop :=
  forall k, cursor s k <= cursor s' k.

Lemma cursors_mono_refl s : cursors_mono s s.
Proof. intro k; lia. Qed.

Lemma cursors_mono_trans s1 s2 s3 :
  cursors_mono s1 s2 -> cursors_mono s2 s3 -> cursors_mono s1 s3.
Proof. intros H1 H2 k; specialize (H1 k); specialize (H2 k); lia. Qed.

Lemma map_get_set {V} (m : list (string * V)) k v a :
  map_get (map_set m k v) a = if String.eqb a k then Some v else map_get m a.
Proof.
  induction m as [|[k' v'] m IH]; cbn.
  - destruct (String.eqb a k); reflexivity.
  - destruct (String.eqb k k') eqn:E1; cbn.
    + apply String.eqb_eq in E1; subst k'.
      destruct (String.eqb a k); reflexivity.
    + rewrite IH. destruct (String.eqb a k') eqn:E2, (String.eqb a k) eqn:E3; try reflexivity.
      apply String.eqb_eq in E2; apply String.eqb_eq in E3; subst.
      rewrite String.eqb_refl in E1; discriminate.
Qed.

Lemma in_map_set {V} (m : list (string * V)) k v a w :
  In (a, w) (map_set m k v) -> In (a, w) m \/ (a = k /\ w = v).
Proof.
  induction m as [|[k' v'] m IH]; cbn; intros H.
  - destruct H as [H|[]]; inversion H; auto.
  - destruct (String.eqb k k'); cbn in H.
    + destruct H as [H|H]; [inversion H; auto | auto].
    + destruct H as [H|H]; [auto | destruct (IH H); auto].
Qed.

(** Reading the cursors changes nothing and returns the stored values. *)
Lemma read_lastIds_spec c accts ids mn e s :
  snd (read_lastIds c accts ids mn e s) = s /\
  forall ids' mn', fst (read_lastIds c accts ids mn e s) = Some (ids', mn') ->
    forall a, map_get ids' a =
      if in_dec String.string_dec a accts
      then Some (cursor s (lastId_key a c)) else map_get ids a.
Proof.
  revert ids mn; induction accts as [|a rest IH]; intros ids mn; cbn [read_lastIds].
  - split; [reflexivity|]. intros ids' mn' H; inversion H; subst. reflexivity.
  - unfold getLastId, bind, call, getS, ret.
    destruct (fails e (OGet (lastId_key a c))); cbn [fst snd].
    + split; [reflexivity|discriminate].
    + destruct (IH (map_set ids a (cursor s (lastId_key a c)))
                  (if cursor s (lastId_key a c) <? mn then cursor s (lastId_key a c) else mn))
        as [IH1 IH2].
      split; [exact IH1|]. intros ids' mn' H x. rewrite (IH2 _ _ H x).
      rewrite map_get_set.
      destruct (in_dec String.string_dec x (a :: rest)) as [Hin|Hnin];
        destruct (in_dec String.string_dec x rest) as [Hr|Hr]; try reflexivity.
      * destruct Hin as [<-|Hin]; [|contradiction]. rewrite String.eqb_refl; reflexivity.
      * exfalso; apply Hnin; right; exact Hr.
      * destruct (String.eqb x a) eqn:E; [|reflexivity].
        apply String.eqb_eq in E; subst. exfalso; apply Hnin; left; reflexivity.
Qed.

Lemma write_maxIds_spec c l e s :
  published (snd (write_maxIds c l e s)) = published s /\
  forall k, cursor (snd (write_maxIds c l e s)) k = cursor s k \/
    exists a m, In (a, m) l /\ k = lastId_key a c /\
                cursor (snd (write_maxIds c l e s)) k = m.
Proof.
  revert s; induction l as [|[a m] l IH]; intros s; cbn [write_maxIds].
  - split; [reflexivity|]. intros k; left; reflexivity.
  - unfold setLastId, bind, call, getS, putS, ret.
    destruct (fails e (OSet (lastId_key a c))); cbn [fst snd].
    + split; [reflexivity|]. intros k; left; reflexivity.
    + set (s1 := {| kv := fun k => if String.eqb k (lastId_key a c) then Some m else kv s k;
                    published := published s |}).
      destruct (IH s1) as [IH1 IH2]. split; [exact IH1|].
      intros k. destruct (IH2 k) as [H|(a' & m' & Hin & Hk & Hv)].
      * assert (Hs1 : cursor s1 k =
                if String.eqb k (lastId_key a c) then m else cursor s k)
          by (unfold s1, cursor; cbn [kv]; destruct (String.eqb k (lastId_key a c)); reflexivity).
        rewrite H, Hs1.
        destruct (String.eqb k (lastId_key a c)) eqn:E.
        -- right. exists a, m. apply String.eqb_eq in E.
           split; [left; reflexivity|split; [exact E|reflexivity]].
        -- left; reflexivity.
      * right. exists a', m'. split; [right; exact Hin|auto].
Qed.

Lemma write_maxIds_mono c l e s :
  (forall a m, In (a, m) l -> cursor s (lastId_key a c) <= m) ->
  cursors_mono s (snd (write_maxIds c l e s)).
Proof.
  intros H k. destruct (write_maxIds_spec c l e s) as [_ Hw].
  destruct (Hw k) as [E|(a & m & Hin & -> & E)]; rewrite E; [lia|].
  apply H; exact Hin.
Qed.

(** Accepted HBD rows: every [accountMaxIds] entry added by the loop is
    for a known account and above the cursor read for it. *)
Lemma hbd_scan_maxIds ctx ids t rows acc maxIds :
  forall a m, In (a, m) (snd (hbd_scan ctx ids t rows acc maxIds)) ->
    In (a, m) maxIds \/ (map_get ctx a <> None /\ get_or0 ids a < m).
Proof.
  revert acc maxIds; induction rows as [|row rows IH]; intros acc maxIds a m; cbn [hbd_scan].
  - cbn; auto.
  - destruct (map_get ctx (h_to row)) as [[r k]|] eqn:Ectx; [|apply IH].
    destruct (h_id row <=? get_or0 ids (h_to row)) eqn:E1; [apply IH|].
    destruct (negb (includes (h_memo row) (memo_pattern r HBD))); [apply IH|].
    intros H. destruct (IH _ _ _ _ H) as [H'|H']; [|auto].
    destruct (get_or0 maxIds (h_to row) <? h_id row); [|auto].
    destruct (in_map_set _ _ _ _ _ H') as [H''|[-> ->]]; [auto|].
    right. split; [congruence|]. apply Z.leb_gt in E1; exact E1.
Qed.

(** With no row above the cursor of its (known) recipient, the HBD loop
    accepts nothing. *)
Lemma hbd_scan_none ctx ids t rows acc maxIds :
  (forall row, In row rows -> map_get ctx (h_to row) <> None ->
     h_id row <= get_or0 ids (h_to row)) ->
  hbd_scan ctx ids t rows acc maxIds = (acc, maxIds).
Proof.
  revert acc maxIds; induction rows as [|row rows IH]; intros acc maxIds H; cbn [hbd_scan];
    [reflexivity|].
  assert (Hr : forall row', In row' rows -> map_get ctx (h_to row') <> None ->
                 h_id row' <= get_or0 ids (h_to row')) by (intros; apply H; [right|]; auto).
  destruct (map_get ctx (h_to row)) as [[r k]|] eqn:Ectx; [|apply IH; exact Hr].
  assert (Hle : h_id row <= get_or0 ids (h_to row)) by (apply H; [left; reflexivity|congruence]).
  apply Z.leb_le in Hle. rewrite Hle. apply IH; exact Hr.
Qed.

Lemma he_scan_maxIds sym ctx ids rows acc maxIds ts mx :
  he_scan sym ctx ids rows acc maxIds = Some (ts, mx) ->
  forall a m, In (a, m) mx ->
    In (a, m) maxIds \/ (map_get ctx a <> None /\ get_or0 ids a < m).
Proof.
  revert acc maxIds; induction rows as [|row rows IH]; intros acc maxIds; cbn [he_scan].
  - intros H; inversion H; subst; auto.
  - destruct (cj_json row) as [| |j]; [apply IH|discriminate|].
    destruct (contractPayload j) as [p|]; [|apply IH].
    destruct (opt_str_eqb (contractName j) "tokens" && opt_str_eqb (contractAction j) "transfer"
              && opt_str_eqb (p_symbol p) (currency_str sym)); [|apply IH].
    destruct (p_to p) as [to|]; [|apply IH].
    destruct (if String.eqb to "" then None else map_get ctx to) as [[r k]|] eqn:Ectx;
      [|apply IH].
    assert (Hctx : map_get ctx to <> None)
      by (destruct (String.eqb to ""); [discriminate|congruence]).
    destruct (cj_id row <=? get_or0 ids to) eqn:E1; [apply IH|].
    destruct (negb (includes (memo_string (p_memo p)) (memo_pattern r sym))); [apply IH|].
    intros H a m Hin. destruct (IH _ _ H a m Hin) as [H'|H']; [|auto].
    destruct (get_or0 maxIds to <? cj_id row); [|auto].
    destruct (in_map_set _ _ _ _ _ H') as [H''|[-> ->]]; [auto|].
    right. split; [exact Hctx|]. apply Z.leb_gt in E1; exact E1.
Qed.

Lemma get_or0_read ids accts s c a :
  (forall x, map_get ids x =
     if in_dec String.string_dec x accts then Some (cursor s (lastId_key x c)) else map_get [] x) ->
  In a accts -> get_or0 ids a = cursor s (lastId_key a c).
Proof.
  intros H Hin. unfold get_or0. rewrite H.
  destruct (in_dec String.string_dec a accts); [reflexivity|contradiction].
Qed.

Ltac unchanged := split; [apply cursors_mono_refl|reflexivity].

(** The HBD detector never lowers a cursor and never publishes. *)
Lemma pollHBDBatched_mono accts ctx e s :
  (forall a, map_get ctx a <> None -> In a accts) ->
  cursors_mono s (snd (pollHBDBatched accts ctx e s)) /\
  published (snd (pollHBDBatched accts ctx e s)) = published s.
Proof.
  intros Hctx. unfold pollHBDBatched.
  destruct accts as [|a0 l0]; [cbn; unchanged|].
  unfold bind.
  destruct (read_lastIds_spec HBD (a0 :: l0) [] MAX_SAFE_INTEGER e s) as [Hs Hids].
  destruct (read_lastIds HBD (a0 :: l0) [] MAX_SAFE_INTEGER e s) as [[[ids mn]|] s1] eqn:E1;
    cbn [fst snd] in Hs; subst s1; [|unchanged].
  specialize (Hids ids mn eq_refl).
  unfold hbd_select, bind, call, askE, ret.
  destruct (fails e OHbdQuery); cbn [fst snd]; [unchanged|].
  destruct (hbd_scan ctx ids (now e) (hbd_query (ledger e) (a0 :: l0) mn) [] []) as [ts mx] eqn:E2.
  pose proof (hbd_scan_maxIds ctx ids (now e) (hbd_query (ledger e) (a0 :: l0) mn) [] []) as Hmx.
  rewrite E2 in Hmx; cbn [snd] in Hmx.
  assert (Hm : cursors_mono s (snd (write_maxIds HBD mx e s))).
  { apply write_maxIds_mono. intros a m Hin.
    destruct (Hmx a m Hin) as [[]|[Ha Hlt]].
    rewrite <- (get_or0_read ids (a0 :: l0) s HBD a Hids (Hctx a Ha)). lia. }
  destruct (write_maxIds_spec HBD mx e s) as [Hp _].
  destruct (write_maxIds HBD mx e s) as [[u|] s2]; cbn [fst snd] in *; auto.
Qed.

(** The Hive-Engine detector never lowers a cursor and never publishes. *)
Lemma pollHiveEngineTokenBatched_mono sym accts ctx e s :
  (forall a, map_get ctx a <> None -> In a accts) ->
  cursors_mono s (snd (pollHiveEngineTokenBatched sym accts ctx e s)) /\
  published (snd (pollHiveEngineTokenBatched sym accts ctx e s)) = published s.
Proof.
  intros Hctx. unfold pollHiveEngineTokenBatched.
  destruct accts as [|a0 l0]; [cbn; unchanged|].
  unfold bind.
  destruct (read_lastIds_spec sym (a0 :: l0) [] MAX_SAFE_INTEGER e s) as [Hs Hids].
  destruct (read_lastIds sym (a0 :: l0) [] MAX_SAFE_INTEGER e s) as [[[ids mn]|] s1] eqn:E1;
    cbn [fst snd] in Hs; subst s1; [|unchanged].
  specialize (Hids ids mn eq_refl).
  unfold head_select, cj_select, bind, call, askE, ret, throw.
  destruct (fails e (OConnect sym)); cbn [fst snd]; [unchanged|].
  destruct (fails e (OSession sym 0)); cbn [fst snd]; [unchanged|].
  destruct (fails e (OSession sym 1)); cbn [fst snd]; [unchanged|].
  destruct (fails e (OBlockQuery sym)); cbn [fst snd]; [unchanged|].
  destruct (fails e (OCjQuery sym)); cbn [fst snd]; [unchanged|].
  set (rows := cj_query (ledger e) _ _ mn).
  destruct rows as [|r0 rs0] eqn:Er; [unchanged|].
  destruct (he_scan sym ctx ids (r0 :: rs0) [] []) as [[ts mx]|] eqn:E2; [|unchanged].
  pose proof (he_scan_maxIds sym ctx ids (r0 :: rs0) [] [] ts mx E2) as Hmx.
  assert (Hm : cursors_mono s (snd (write_maxIds sym mx e s))).
  { apply write_maxIds_mono. intros a m Hin.
    destruct (Hmx a m Hin) as [[]|[Ha Hlt]].
    rewrite <- (get_or0_read ids (a0 :: l0) s sym a Hids (Hctx a Ha)). lia. }
  destruct (write_maxIds_spec sym mx e s) as [Hp _].
  destruct (write_maxIds sym mx e s) as [[u|] s2]; cbn [fst snd] in *; auto.
Qed.

Lemma build_ctx_dom cs ctx0 a :
  map_get (build_ctx cs ctx0) a <> None -> In a (accountList cs) \/ map_get ctx0 a <> None.
Proof.
  revert ctx0; induction cs as [|c cs IH]; intros ctx0; cbn [build_ctx accountList map].
  - auto.
  - intros H. destruct (IH _ H) as [H'|H']; [left; right; exact H'|].
    rewrite map_get_set in H'. destruct (String.eqb a (ac_account c)) eqn:E.
    + apply String.eqb_eq in E; subst; left; left; reflexivity.
    + auto.
Qed.

Lemma ctx_in_accounts rs a :
  map_get (build_ctx (getAllAccounts rs) []) a <> None -> In a (accountList (getAllAccounts rs)).
Proof.
  intros H. destruct (build_ctx_dom _ _ _ H) as [H'|H']; [exact H'|].
  exfalso; apply H'; reflexivity.
Qed.

Lemma publish_all_kv ts e s : kv (snd (publish_all ts e s)) = kv s.
Proof.
  revert s; induction ts as [|t ts IH]; intros s; cbn [publish_all]; [reflexivity|].
  unfold publishTransfer, bind, call, getS, putS, ret.
  destruct (fails e (OXAdd ("transfers:" ++ t_restaurant_id t))); cbn [fst snd]; [reflexivity|].
  rewrite IH; reflexivity.
Qed.

(** A whole cycle never lowers a cursor, whatever fails during it. *)
Lemma pollAllTransfers_with_mono rs e s :
  cursors_mono s (snd (pollAllTransfers_with rs e s)).
Proof.
  unfold pollAllTransfers_with.
  set (accts := accountList (getAllAccounts rs)).
  set (ctx := build_ctx (getAllAccounts rs) []).
  assert (Hctx : forall a, map_get ctx a <> None -> In a accts) by apply ctx_in_accounts.
  destruct (pollHBDBatched_mono accts ctx e s Hctx) as [M1 _].
  destruct (pollHBDBatched accts ctx e s) as [[h|] s1]; cbn [snd] in *; [|exact M1].
  destruct (pollHiveEngineTokenBatched_mono EURO accts ctx e s1 Hctx) as [M2 _].
  destruct (pollHiveEngineTokenBatched EURO accts ctx e s1) as [[eu|] s2]; cbn [snd] in *;
    [|eapply cursors_mono_trans; eauto].
  destruct (pollHiveEngineTokenBatched_mono OCLT accts ctx e s2 Hctx) as [M3 _].
  destruct (pollHiveEngineTokenBatched OCLT accts ctx e s2) as [[oc|] s3]; cbn [snd] in *;
    [|eapply cursors_mono_trans; [eauto|]; eapply cursors_mono_trans; eauto].
  pose proof (publish_all_kv (h ++ eu ++ oc)%list e s3) as Hp.
  destruct (publish_all (h ++ eu ++ oc)%list e s3) as [u s4]; cbn [snd] in *.
  intros k. specialize (M1 k); specialize (M2 k); specialize (M3 k).
  unfold cursor in *. rewrite Hp. lia.
Qed.

Lemma he_scan_none sym ctx ids rows acc maxIds :
  (forall row a, In row rows -> map_get ctx a <> None -> cj_id row <= get_or0 ids a) ->
  he_scan sym ctx ids rows acc maxIds = None \/
  he_scan sym ctx ids rows acc maxIds = Some (acc, maxIds).
Proof.
  revert acc maxIds; induction rows as [|row rows IH]; intros acc maxIds H; cbn [he_scan];
    [right; reflexivity|].
  assert (Hr : forall row' a, In row' rows -> map_get ctx a <> None ->
                 cj_id row' <= get_or0 ids a) by (intros; apply H; [right|]; auto).
  destruct (cj_json row) as [| |j]; [apply IH; exact Hr|left; reflexivity|].
  destruct (contractPayload j) as [p|]; [|apply IH; exact Hr].
  destruct (opt_str_eqb (contractName j) "tokens" && opt_str_eqb (contractAction j) "transfer"
            && opt_str_eqb (p_symbol p) (currency_str sym)); [|apply IH; exact Hr].
  destruct (p_to p) as [to|]; [|apply IH; exact Hr].
  destruct (if String.eqb to "" then None else map_get ctx to) as [[r k]|] eqn:Ectx;
    [|apply IH; exact Hr].
  assert (Hctx : map_get ctx to <> None)
    by (destruct (String.eqb to ""); [discriminate|congruence]).
  assert (Hle : cj_id row <= get_or0 ids to) by (apply H; [left; reflexivity|exact Hctx]).
  apply Z.leb_le in Hle. rewrite Hle. apply IH; exact Hr.
Qed.

Lemma pollHBDBatched_quiet accts ctx e s :
  (forall a, map_get ctx a <> None -> In a accts) ->
  (forall mn row, In row (hbd_query (ledger e) accts mn) ->
     In (h_to row) accts -> h_id row <= cursor s (lastId_key (h_to row) HBD)) ->
  pollHBDBatched accts ctx e s = (None, s) \/ pollHBDBatched accts ctx e s = (Some [], s).
Proof.
  intros Hctx Hq. unfold pollHBDBatched.
  destruct accts as [|a0 l0]; [right; reflexivity|].
  unfold bind.
  destruct (read_lastIds_spec HBD (a0 :: l0) [] MAX_SAFE_INTEGER e s) as [Hs Hids].
  destruct (read_lastIds HBD (a0 :: l0) [] MAX_SAFE_INTEGER e s) as [[[ids mn]|] s1] eqn:E1;
    cbn [fst snd] in Hs; subst s1; [|left; reflexivity].
  specialize (Hids ids mn eq_refl).
  unfold hbd_select, bind, call, askE, ret.
  destruct (fails e OHbdQuery); [left; reflexivity|].
  rewrite hbd_scan_none; [right; reflexivity|].
  intros row Hin Hk. rewrite (get_or0_read ids (a0 :: l0) s HBD _ Hids (Hctx _ Hk)).
  apply Hq with mn; [exact Hin|exact (Hctx _ Hk)].
Qed.

Lemma pollHiveEngineTokenBatched_quiet sym accts ctx e s :
  (forall a, map_get ctx a <> None -> In a accts) ->
  (forall lo hi mn row a, In row (cj_query (ledger e) lo hi mn) ->
     In a accts -> cj_id row <= cursor s (lastId_key a sym)) ->
  pollHiveEngineTokenBatched sym accts ctx e s = (None, s) \/
  pollHiveEngineTokenBatched sym accts ctx e s = (Some [], s).
Proof.
  intros Hctx Hq. unfold pollHiveEngineTokenBatched.
  destruct accts as [|a0 l0]; [right; reflexivity|].
  unfold bind.
  destruct (read_lastIds_spec sym (a0 :: l0) [] MAX_SAFE_INTEGER e s) as [Hs Hids].
  destruct (read_lastIds sym (a0 :: l0) [] MAX_SAFE_INTEGER e s) as [[[ids mn]|] s1] eqn:E1;
    cbn [fst snd] in Hs; subst s1; [|left; reflexivity].
  specialize (Hids ids mn eq_refl).
  unfold head_select, cj_select, bind, call, askE, ret, throw.
  destruct (fails e (OConnect sym)); [left; reflexivity|].
  destruct (fails e (OSession sym 0)); [left; reflexivity|].
  destruct (fails e (OSession sym 1)); [left; reflexivity|].
  destruct (fails e (OBlockQuery sym)); [left; reflexivity|].
  destruct (fails e (OCjQuery sym)); [left; reflexivity|].
  set (lo := current_block (head_query (ledger e)) - 10000).
  set (hi := current_block (head_query (ledger e))).
  assert (Hr : forall row, In row (cj_query (ledger e) lo hi mn) ->
                 forall a, In a (a0 :: l0) -> cj_id row <= cursor s (lastId_key a sym))
    by (intros; eapply Hq; eauto).
  destruct (cj_query (ledger e) lo hi mn) as [|r0 rs0]; [right; reflexivity|].
  destruct (he_scan_none sym ctx ids (r0 :: rs0) [] []) as [E|E].
  - intros row a Hin Ha. rewrite (get_or0_read ids (a0 :: l0) s sym a Hids (Hctx a Ha)).
    apply Hr; [exact Hin|exact (Hctx a Ha)].
  - rewrite E; left; reflexivity.
  - rewrite E; right; reflexivity.
Qed.

Lemma in_firstn_in {A} n (l : list A) x : In x (firstn n l) -> In x l.
Proof.
  intros H. rewrite <- (firstn_skipn n l). apply in_or_app. left; exact H.
Qed.

Lemma in_insert_desc {A} key (y x : A) l : In x (insert_desc key y l) -> x = y \/ In x l.
Proof.
  induction l as [|z l IH]; cbn; [intros [H|[]]; auto|].
  destruct (key z <? key y); cbn.
  - intros [H|H]; auto.
  - intros [H|H]; [auto|]. destruct (IH H); auto.
Qed.

Lemma in_sort_desc {A} key (l : list A) x : In x (sort_desc key l) -> In x l.
Proof.
  induction l as [|y l IH]; cbn; [auto|].
  intros H. destruct (in_insert_desc key y x _ H); auto.
Qed.

(** The custom_json query returns only rows of the table inside the
    block range it is given. *)
Lemma sql_cj_between tbl lo hi mn r :
  In r (sql_cj tbl lo hi mn) -> In r tbl /\ lo <= cj_block r <= hi.
Proof.
  unfold sql_cj. intros H. apply in_firstn_in, in_sort_desc, filter_In in H.
  destruct H as [Hin Hf]. split; [exact Hin|].
  apply andb_prop in Hf as [Hf _]. apply andb_prop in Hf as [Hf _].
  apply andb_prop in Hf as [H1 H2]. apply Z.leb_le in H1; apply Z.leb_le in H2. lia.
Qed.

(** Every transfer of the Hive-Engine loop comes from one of its rows. *)
Lemma he_scan_origin sym ctx ids rows acc maxIds ts mx :
  he_scan sym ctx ids rows acc maxIds = Some (ts, mx) ->
  forall x, In x ts -> In x acc \/
    exists r, In r rows /\ t_id x = cj_id r /\ t_block_num x = Some (cj_block r).
Proof.
  revert acc maxIds; induction rows as [|row rows IH]; intros acc maxIds; cbn [he_scan].
  - intros H; inversion H; subst; auto.
  - assert (Hlift : forall acc' mx',
              he_scan sym ctx ids rows acc' mx' = Some (ts, mx) ->
              (forall x, In x acc' -> In x acc \/ x = x /\ False \/
                 exists r, In r (row :: rows) /\ t_id x = cj_id r /\ t_block_num x = Some (cj_block r)) ->
              forall x, In x ts -> In x acc \/
                exists r, In r (row :: rows) /\ t_id x = cj_id r /\ t_block_num x = Some (cj_block r)).
    { intros acc' mx' H Hacc x Hx. destruct (IH _ _ H x Hx) as [Ha|(r & Hr & E1 & E2)].
      - destruct (Hacc x Ha) as [?|[[_ []]|?]]; auto.
      - right; exists r; split; [right|]; auto. }
    assert (Hsame : forall x, In x acc -> In x acc \/ x = x /\ False \/
                      exists r, In r (row :: rows) /\ t_id x = cj_id r /\
                                t_block_num x = Some (cj_block r)) by auto.
    destruct (cj_json row) as [| |j]; [intros H; exact (Hlift _ _ H Hsame)|discriminate|].
    destruct (contractPayload j) as [p|]; [|intros H; exact (Hlift _ _ H Hsame)].
    destruct (opt_str_eqb (contractName j) "tokens" && opt_str_eqb (contractAction j) "transfer"
              && opt_str_eqb (p_symbol p) (currency_str sym)); [|intros H; exact (Hlift _ _ H Hsame)].
    destruct (p_to p) as [to|]; [|intros H; exact (Hlift _ _ H Hsame)].
    destruct (if String.eqb to "" then None else map_get ctx to) as [[r k]|];
      [|intros H; exact (Hlift _ _ H Hsame)].
    destruct (cj_id row <=? get_or0 ids to); [intros H; exact (Hlift _ _ H Hsame)|].
    destruct (negb (includes (memo_string (p_memo p)) (memo_pattern r sym)));
      [intros H; exact (Hlift _ _ H Hsame)|].
    intros H. apply (Hlift _ _ H). intros x Hx. apply in_app_or in Hx as [Hx|[<-|[]]]; auto.
    right; right. exists row. split; [left; reflexivity|split; reflexivity].
Qed.

(** The rows the Hive-Engine detector examines are those of the query
    over [[head - 10000, head]]. *)
Lemma pollHiveEngineTokenBatched_origin sym accts ctx e s ts :
  fst (pollHiveEngineTokenBatched sym accts ctx e s) = Some ts ->
  forall x, In x ts -> exists mn r,
    In r (cj_query (ledger e) (current_block (head_query (ledger e)) - 10000)
                              (current_block (head_query (ledger e))) mn) /\
    t_id x = cj_id r /\ t_block_num x = Some (cj_block r).
Proof.
  unfold pollHiveEngineTokenBatched.
  destruct accts as [|a0 l0]; [cbn; intros H; inversion H; subst; intros x []|].
  unfold bind.
  destruct (read_lastIds sym (a0 :: l0) [] MAX_SAFE_INTEGER e s) as [[[ids mn]|] s1];
    [|discriminate].
  unfold head_select, cj_select, bind, call, askE, ret, throw.
  destruct (fails e (OConnect sym)); [discriminate|].
  destruct (fails e (OSession sym 0)); [discriminate|].
  destruct (fails e (OSession sym 1)); [discriminate|].
  destruct (fails e (OBlockQuery sym)); [discriminate|].
  destruct (fails e (OCjQuery sym)); [discriminate|].
  destruct (cj_query (ledger e) _ _ mn) as [|r0 rs0] eqn:Er;
    [cbn; intros H; inversion H; subst; intros x []|].
  destruct (he_scan sym ctx ids (r0 :: rs0) [] []) as [[ts' mx]|] eqn:E2; [|discriminate].
  destruct (write_maxIds sym mx e s1) as [[u|] s2]; cbn [fst]; [|discriminate].
  intros H; inversion H; subst ts'. intros x Hx.
  destruct (he_scan_origin _ _ _ _ _ _ _ _ E2 x Hx) as [[]|(r & Hr & E3 & E4)].
  exists mn, r. rewrite Er. auto.
Qed.

Lemma pollHiveEngineTokenBatched_empty sym ctx e s :
  pollHiveEngineTokenBatched sym [] ctx e s = (Some [], s).
Proof. reflexivity. Qed.

Lemma run_cycles_mono rs es s : cursors_mono s (run_cycles rs es s).
Proof.
  unfold run_cycles. revert s; induction es as [|e es IH]; intros s; cbn [fold_left].
  - apply cursors_mono_refl.
  - eapply cursors_mono_trans; [apply pollAllTransfers_with_mono|apply IH].
Qed.

Lemma current_block_nonzero h : h <> 0 -> current_block (Some h) = h.
Proof. intros H. cbn. destruct (Z.eqb_spec h 0); [contradiction|reflexivity]. Qed.

(* ================================================================== *)
(** * Claims on the polling cycle *)

(** C2 (as stated, refuted): a cycle that fails partway does not leave
    the cursors unchanged.  The HBD step commits cursor [105] for
    [indies.cafe]; the EURO step then fails to connect; the cycle returns,
    the cursor stays at [105] and the HBD transfer was never published. *)
Lemma failed_cycle_keeps_advanced_cursor :
  cursor (store_with 100) (lastId_key "indies.cafe" HBD) = 100 /\
  fst (pollAllTransfers euro_down_env (store_with 100)) <> None /\
  cursor (snd (pollAllTransfers euro_down_env (store_with 100))) (lastId_key "indies.cafe" HBD) = 105 /\
  published (snd (pollAllTransfers euro_down_env (store_with 100))) = [].
Proof. vm_compute. repeat split; discriminate || reflexivity. Qed.

(** C3 (as stated, refuted): [setLastId] does not compare; a smaller
    candidate overwrites a larger stored cursor. *)
Lemma setLastId_lowers_cursor :
  cursor (store_with 200) (lastId_key "indies.cafe" HBD) = 200 /\
  cursor (snd (setLastId "indies.cafe" HBD 150 quiet_env (store_with 200)))
         (lastId_key "indies.cafe" HBD) = 150.
Proof. split; reflexivity. Qed.

(** C3 (amended): [setLastId] writes its candidate unconditionally (when
    the [SET] succeeds); monotonicity is enforced by the detectors, which
    only write ids above the cursors they read, so over any sequence of
    polling cycles every cursor is non-decreasing. *)
Theorem setLastId_unconditional_cycles_monotone :
  (forall a c v e s,
      cursor (snd (setLastId a c v e s)) (lastId_key a c) =
      if fails e (OSet (lastId_key a c)) then cursor s (lastId_key a c) else v) /\
  (forall rs es s, cursors_mono s (run_cycles rs es s)).
Proof.
  split; [|exact run_cycles_mono].
  intros a c v e s. unfold setLastId, bind, call, getS, putS, ret, cursor.
  destruct (fails e (OSet (lastId_key a c))); [reflexivity|].
  cbn. rewrite String.eqb_refl. reflexivity.
Qed.

(** C5: when no row the ledger returns has an id above the cursors of the
    configured accounts, the whole cycle returns no transfer and leaves
    the store (cursors and published streams) exactly as it was. *)
Theorem cycle_idempotent_without_new_rows rs e s :
  (forall mn row, In row (hbd_query (ledger e) (accountList (getAllAccounts rs)) mn) ->
     In (h_to row) (accountList (getAllAccounts rs)) ->
     h_id row <= cursor s (lastId_key (h_to row) HBD)) ->
  (forall lo hi mn row a, In row (cj_query (ledger e) lo hi mn) ->
     In a (accountList (getAllAccounts rs)) ->
     cj_id row <= cursor s (lastId_key a EURO) /\ cj_id row <= cursor s (lastId_key a OCLT)) ->
  pollAllTransfers_with rs e s = (Some [], s).
Proof.
  intros Hh Hc. unfold pollAllTransfers_with.
  set (accts := accountList (getAllAccounts rs)) in *.
  set (ctx := build_ctx (getAllAccounts rs) []).
  assert (Hctx : forall a, map_get ctx a <> None -> In a accts) by apply ctx_in_accounts.
  destruct (pollHBDBatched_quiet accts ctx e s Hctx Hh) as [E|E]; rewrite E; [reflexivity|].
  destruct (pollHiveEngineTokenBatched_quiet EURO accts ctx e s Hctx) as [E2|E2];
    [intros lo hi mn row a Hin Ha; apply (Hc lo hi mn row a Hin Ha)| |];
    rewrite E2; [reflexivity|].
  destruct (pollHiveEngineTokenBatched_quiet OCLT accts ctx e s Hctx) as [E3|E3];
    [intros lo hi mn row a Hin Ha; apply (Hc lo hi mn row a Hin Ha)| |];
    rewrite E3; reflexivity.
Qed.

Lemma cycle_idempotent_without_new_rows_witness :
  pollAllTransfers stale_env (store_with 100) = (Some [], store_with 100).
Proof.
  apply cycle_idempotent_without_new_rows.
  - intros mn row [<-|[]] _. apply Z.leb_le. vm_compute. reflexivity.
  - intros lo hi mn row a [].
Defined.

(** C10: with the ledger answering the SQL queries over its tables and a
    nonzero head block [h], every transfer the Hive-Engine detector
    returns comes from a custom_json row whose block lies in
    [[h - 10000, h]] and carries that row's id and block; so a row below
    the window is never detected, whatever its id. *)
Theorem he_detects_only_window sym accts ctx tbl blocks cjs fl t s h :
  sql_head blocks = Some h -> h <> 0 ->
  let e := {| ledger := sql_ledger tbl blocks cjs; fails := fl; now := t |} in
  match fst (pollHiveEngineTokenBatched sym accts ctx e s) with
  | Some ts => Forall (fun x => exists r, In r cjs /\ h - 10000 <= cj_block r <= h /\
                                   t_id x = cj_id r /\ t_block_num x = Some (cj_block r)) ts
  | None => True
  end.
Proof.
  intros Hh Hnz e.
  destruct (fst (pollHiveEngineTokenBatched sym accts ctx e s)) as [ts|] eqn:E; [|exact I].
  apply Forall_forall. intros x Hx.
  destruct (pollHiveEngineTokenBatched_origin sym accts ctx e s ts E x Hx) as (mn & r & Hr & E1 & E2).
  cbn in Hr. rewrite Hh, (current_block_nonzero h Hnz) in Hr.
  destruct (sql_cj_between cjs (h - 10000) h mn r Hr) as [Hin Hb].
  exists r. auto.
Qed.

Lemma he_detects_only_window_witness :
  sql_head window_blocks = Some 120000 /\
  match fst (pollHiveEngineTokenBatched EURO all_accounts all_ctx
               {| ledger := sql_ledger [] window_blocks window_cjs;
                  fails := fun _ => false; now := 0 |} (store_with 0)) with
  | Some ts => Forall (fun x => exists r, In r window_cjs /\ 120000 - 10000 <= cj_block r <= 120000 /\
                                   t_id x = cj_id r /\ t_block_num x = Some (cj_block r)) ts
  | None => True
  end.
Proof.
  split; [reflexivity|].
  apply (he_detects_only_window EURO all_accounts all_ctx [] window_blocks window_cjs
           (fun _ => false) 0 (store_with 0) 120000); [reflexivity|lia].
Defined.

(* ================================================================== *)
(** * Lemmas on the lease and the consumer group *)

Lemma run_takeovers_held calls id exp hb md :
  Forall (fun c => snd c < exp) calls ->
  run_takeovers calls {| poller := Some (id, exp); heartbeat := hb; mode := md |} =
  (repeat false (length calls), {| poller := Some (id, exp); heartbeat := hb; mode := md |}).
Proof.
  induction calls as [|[i t] rest IH]; intros H; [reflexivity|].
  inversion H as [|? ? Ht Hrest]; subst; cbn [snd] in Ht.
  cbn [run_takeovers]. unfold attemptTakeoverAsPoller, getPoller; cbn [poller].
  replace (t <? exp) with true by (symmetry; apply Z.ltb_lt; exact Ht).
  rewrite (IH Hrest). reflexivity.
Qed.


Definition acked (ids : list Z) (pe : PelEntry) : bool := existsb (Z.eqb (pe_id pe)) ids.

Lemma filter_none_matching id p :
  existsb (fun pe => pe_id pe =? id) p = false ->
  filter (fun pe => negb (pe_id pe =? id)) p = p.
Proof.
  induction p as [|x p IH]; cbn; [reflexivity|].
  destruct (pe_id x =? id); cbn; [discriminate|]. intros H; rewrite (IH H); reflexivity.
Qed.

Lemma xack1_spec id es ld p :
  xack1 id {| entries := es; group := Some {| last_delivered := ld; pel := p |} |} =
  (if existsb (fun pe => pe_id pe =? id) p then 1%nat else 0%nat,
   {| entries := es; group := Some {| last_delivered := ld;
        pel := filter (fun pe => negb (pe_id pe =? id)) p |} |}).
Proof.
  unfold xack1; cbn [group pel last_delivered entries].
  destruct (existsb (fun pe => pe_id pe =? id) p) eqn:E; [reflexivity|].
  rewrite (filter_none_matching id p E). reflexivity.
Qed.

Lemma NoDup_map_filter (f : PelEntry -> bool) p :
  NoDup (map pe_id p) -> NoDup (map pe_id (filter f p)).
Proof.
  induction p as [|x p IH]; cbn; [auto|]. intros H; inversion H as [|? ? Hx Hp]; subst.
  destruct (f x); cbn; [|auto]. constructor; [|auto].
  intros Hin. apply Hx. apply in_map_iff in Hin as (y & Ey & Hy).
  apply filter_In in Hy as [Hy _]. rewrite <- Ey. apply in_map; exact Hy.
Qed.

Lemma filter_filter_pel (f g : PelEntry -> bool) p :
  filter f (filter g p) = filter (fun x => g x && f x) p.
Proof.
  induction p as [|x p IH]; cbn; [reflexivity|].
  destruct (g x); cbn; [destruct (f x)|]; cbn; rewrite ?IH; reflexivity.
Qed.

Lemma count_split id ids p :
  NoDup (map pe_id p) ->
  length (filter (acked (id :: ids)) p) =
  ((if existsb (fun pe => Z.eqb (pe_id pe) id) p then 1 else 0) +
   length (filter (acked ids) (filter (fun pe => negb (Z.eqb (pe_id pe) id)) p)))%nat.
Proof.
  induction p as [|x p IH]; [reflexivity|].
  intros H; inversion H as [|? ? Hx Hp]; subst. specialize (IH Hp).
  assert (Ha : acked (id :: ids) x = (Z.eqb (pe_id x) id || acked ids x)) by reflexivity.
  cbn [filter existsb]. rewrite Ha.
  destruct (Z.eqb_spec (pe_id x) id) as [E|E]; cbn [orb negb filter length].
  - assert (Hn : existsb (fun pe => Z.eqb (pe_id pe) id) p = false).
    { apply Bool.not_true_is_false. intros Hb. apply existsb_exists in Hb as (y & Hy & Ey).
      apply Z.eqb_eq in Ey. apply Hx. rewrite E, <- Ey. apply in_map; exact Hy. }
    rewrite IH, Hn. reflexivity.
  - destruct (acked ids x); cbn [length filter]; rewrite IH;
      destruct (existsb (fun pe => Z.eqb (pe_id pe) id) p); lia.
Qed.

Lemma ack_loop_spec ids acc es ld p :
  NoDup (map pe_id p) ->
  ack_loop ids acc {| entries := es; group := Some {| last_delivered := ld; pel := p |} |} =
  ((acc + length (filter (acked ids) p))%nat,
   {| entries := es; group := Some {| last_delivered := ld;
        pel := filter (fun pe => negb (acked ids pe)) p |} |}).
Proof.
  revert acc p; induction ids as [|id ids IH]; intros acc p Hp; cbn [ack_loop].
  - assert (E1 : filter (acked []) p = []) by (clear Hp; induction p; cbn; auto).
    assert (E2 : filter (fun pe => negb (acked [] pe)) p = p)
      by (clear Hp; induction p; cbn; f_equal; auto).
    rewrite E1, E2. cbn [length]. rewrite Nat.add_0_r. reflexivity.
  - rewrite xack1_spec. cbv beta iota.
    rewrite (IH _ (filter (fun pe => negb (Z.eqb (pe_id pe) id)) p) (NoDup_map_filter _ p Hp)).
    rewrite (count_split id ids p Hp), (filter_filter_pel (fun pe => negb (acked ids pe))). cbv beta.
    assert (Ef : filter (fun x => negb (Z.eqb (pe_id x) id) && negb (acked ids x)) p =
                 filter (fun pe => negb (acked (id :: ids) pe)) p).
    { apply filter_ext. intros x. unfold acked; cbn [existsb].
      destruct (Z.eqb (pe_id x) id); reflexivity. }
    rewrite Ef. f_equal. lia.
Qed.

Lemma xack_multi_loop ids acc st :
  fold_left (fun '(n, s) id => let '(r, s') := xack1 id s in ((n + r)%nat, s')) ids (acc, st) =
  ack_loop ids acc st.
Proof.
  revert acc st; induction ids as [|id ids IH]; intros acc st; cbn; [reflexivity|].
  destruct (xack1 id st) as [r s1]. apply IH.
Qed.

(* ================================================================== *)
(** * Claims on the lease, the mode and the consumer group *)

(** C1: against a lease that is free (absent or expired) at the first
    attempt, the first of a sequence of [SET NX] takeover attempts made
    before that new lease expires wins: it returns [true] and the lease
    becomes [(id0, t0 + 30000)]; every later attempt returns [false] and
    leaves the lease as it is.  So exactly one attempt succeeds. *)
Theorem takeover_single_winner id0 t0 rest st :
  getPoller st t0 = None ->
  Forall (fun c => snd c < t0 + POLLER_LOCK_TTL_MS) rest ->
  run_takeovers ((id0, t0) :: rest) st =
  (true :: repeat false (length rest),
   {| poller := Some (id0, t0 + POLLER_LOCK_TTL_MS); heartbeat := heartbeat st; mode := mode st |}).
Proof.
  intros Hfree Hrest. cbn [run_takeovers]. unfold attemptTakeoverAsPoller at 1.
  rewrite Hfree. rewrite (run_takeovers_held rest id0 _ _ _ Hrest). reflexivity.
Qed.

Lemma takeover_single_winner_witness :
  run_takeovers [("indies", 0); ("croque-bedaine", 100); ("indies-test", 29999)]
    {| poller := Some ("old", 0); heartbeat := None; mode := None |} =
  ([true; false; false], {| poller := Some ("indies", 30000); heartbeat := None; mode := None |}).
Proof.
  apply (takeover_single_winner "indies" 0 [("croque-bedaine", 100); ("indies-test", 29999)]
           {| poller := Some ("old", 0); heartbeat := None; mode := None |});
    [reflexivity|repeat constructor; cbn; lia].
Defined.


(** C7: for a non-empty [restaurantId] and a non-empty list of ids, on a
    group whose pending records have distinct ids, both versions of the
    ack route answer [AckOk n (length ids)] where [n] is the number of
    pending records whose id is among the given ids; ids not pending add
    nothing and abort nothing, and exactly the given pending records are
    removed. *)
Theorem ack_counts_pending rid ids st g :
  String.eqb rid "" = false -> ids <> [] -> group st = Some g -> NoDup (map pe_id (pel g)) ->
  let n := length (filter (acked ids) (pel g)) in
  let st' := {| entries := entries st;
                group := Some {| last_delivered := last_delivered g;
                                 pel := filter (fun pe => negb (acked ids pe)) (pel g) |} |} in
  ack_POST rid ids st = (AckOk n (length ids), st') /\
  ack_POST_batch rid ids st = (AckOk n (length ids), st').
Proof.
  intros Hr Hids Hg Hnd n st'.
  assert (Est : st = {| entries := entries st;
                        group := Some {| last_delivered := last_delivered g; pel := pel g |} |})
    by (destruct st as [es gr]; destruct g; cbn in *; subst; reflexivity).
  assert (Hl : ack_loop ids 0 st = (n, st'))
    by (rewrite Est; rewrite (ack_loop_spec ids 0 _ _ _ Hnd); reflexivity).
  unfold ack_POST, ack_POST_batch, xack_multi. rewrite Hr.
  destruct ids as [|i0 ids0]; [contradiction|].
  rewrite xack_multi_loop, Hl. split; reflexivity.
Qed.

Lemma ack_counts_pending_witness :
  let st := snd (consume_GET "c1" 2 0 {| entries := [entry 1; entry 2]; group := None |}) in
  ack_POST "indies" [1; 1; 2; 7] st =
    (AckOk 2 4, {| entries := [entry 1; entry 2];
                   group := Some {| last_delivered := 2; pel := [] |} |}) /\
  ack_POST_batch "indies" [1; 1; 2; 7] st =
    (AckOk 2 4, {| entries := [entry 1; entry 2];
                   group := Some {| last_delivered := 2; pel := [] |} |}).
Proof.
  apply (ack_counts_pending "indies" [1; 1; 2; 7]
           (snd (consume_GET "c1" 2 0 {| entries := [entry 1; entry 2]; group := None |}))
           {| last_delivered := 2;
              pel := [{| pe_id := 1; pe_consumer := "c1"; pe_time := 0; pe_count := 1 |};
                      {| pe_id := 2; pe_consumer := "c1"; pe_time := 0; pe_count := 1 |}] |});
    [reflexivity|discriminate|reflexivity|].
  cbn. repeat constructor; cbn; lia.
Defined.

(** C8 (as stated, refuted): a renew by [croque-bedaine] while [indies]
    holds the lease extends [indies]'s expiry from [10000] to [35000]. *)
Lemma renew_by_non_holder_extends :
  getPoller held_by_indies 5000 = Some "indies" /\
  poller (refreshPollerLock "croque-bedaine" 5000 held_by_indies) = Some ("indies", 35000) /\
  poller (refreshPollerLock "croque-bedaine" 5000 held_by_indies) <> poller held_by_indies.
Proof. split; [reflexivity|split; [reflexivity|discriminate]]. Qed.

(** C8 (amended): a renew, whoever calls it, never changes the holder; if a
    lease is live it resets its expiry to [now + 30000], otherwise it does
    nothing; the caller's id plays no part. *)
Theorem renew_keeps_holder_resets_expiry shopId t st :
  poller (refreshPollerLock shopId t st) =
    match getPoller st t with
    | Some id => Some (id, t + POLLER_LOCK_TTL_MS)
    | None => poller st
    end /\
  heartbeat (refreshPollerLock shopId t st) = heartbeat st /\
  mode (refreshPollerLock shopId t st) = mode st /\
  (forall shopId', refreshPollerLock shopId' t st = refreshPollerLock shopId t st).
Proof.
  unfold refreshPollerLock, getPoller. destruct st as [p hb md]; cbn [poller heartbeat mode].
  destruct p as [[id exp]|]; [destruct (t <? exp)|]; repeat split; intros; reflexivity.
Qed.

(** C9 (as stated, refuted): the mode is a stored value, not derived at
    read time; with no lease and a recent heartbeat, [getMode] returns
    the stored [active-6s] and the heartbeat route reports active. *)
Lemma mode_stored_without_lease :
  getPoller mode_without_lease 2000 = None /\
  getMode mode_without_lease = Some Active6s /\
  isActive (heartbeat_GET mode_without_lease 2000) = true.
Proof. repeat split. Qed.

(** C9 (amended): [getMode] returns the stored [polling:mode]; the
    heartbeat route's [isActive] holds iff a non-zero heartbeat is stored
    and [now - heartbeat < HEARTBEAT_TIMEOUT], whatever the lease. *)
Theorem mode_stored_activity_from_heartbeat st t :
  getMode st = mode st /\
  hr_mode (heartbeat_GET st t) = mode st /\
  (isActive (heartbeat_GET st t) = true <->
     exists h, heartbeat st = Some h /\ h <> 0 /\ t - h < HEARTBEAT_TIMEOUT) /\
  (forall p, isActive (heartbeat_GET {| poller := p; heartbeat := heartbeat st; mode := mode st |} t) =
             isActive (heartbeat_GET st t)).
Proof.
  split; [reflexivity|]. split; [reflexivity|]. split; [|reflexivity].
  unfold heartbeat_GET; cbn [isActive].
  destruct (heartbeat st) as [h|]; [|split; [discriminate|intros (h & E & _); discriminate]].
  destruct (Z.eqb_spec h 0) as [E|E].
  - split; [discriminate|]. intros (h' & E' & Hn & _). inversion E'; subst. contradiction.
  - split.
    + intros Hlt. apply Z.ltb_lt in Hlt. exists h; auto.
    + intros (h' & E' & _ & Hlt). inversion E'; subst. apply Z.ltb_lt; exact Hlt.
Qed.

(* ================================================================== *)
(** * Further properties of the code *)

(** [String] append as list append. *)
Lemma list_ascii_of_string_app a b :
  list_ascii_of_string (a ++ b) = (list_ascii_of_string a ++ list_ascii_of_string b)%list.
Proof. induction a as [|c a IH]; cbn; [reflexivity|rewrite IH; reflexivity]. Qed.

Lemma string_app_inv_tail a a' b : (a ++ b = a' ++ b)%string -> a = a'.
Proof.
  intros H. apply (f_equal list_ascii_of_string) in H.
  rewrite !list_ascii_of_string_app in H. apply app_inv_tail in H.
  rewrite <- (string_of_list_ascii_of_string a), <- (string_of_list_ascii_of_string a'), H.
  reflexivity.
Qed.

Lemma lastId_key_inj a a' c : lastId_key a c = lastId_key a' c -> a = a'.
Proof.
  unfold lastId_key. intros H. cbn in H. injection H as H.
  exact (string_app_inv_tail _ _ _ H).
Qed.

Lemma covered_nil maxIds : covered maxIds [].
Proof. intros x []. Qed.

Lemma covered_step maxIds acc x :
  covered maxIds acc -> 0 < t_id x ->
  covered (if get_or0 maxIds (t_account x) <? t_id x
           then map_set maxIds (t_account x) (t_id x) else maxIds) (acc ++ [x])%list.
Proof.
  intros Hc Hpos y Hy.
  destruct (get_or0 maxIds (t_account x) <? t_id x) eqn:E.
  - apply Z.ltb_lt in E. rewrite map_get_set.
    apply in_app_or in Hy as [Hy|[<-|[]]].
    + destruct (Hc y Hy) as (m & Hm & Hle).
      destruct (String.eqb_spec (t_account y) (t_account x)) as [Ea|Ea].
      * exists (t_id x). split; [reflexivity|].
        unfold get_or0 in E. rewrite <- Ea, Hm in E. lia.
      * exists m; auto.
    + rewrite String.eqb_refl. exists (t_id x); split; [reflexivity|lia].
  - apply Z.ltb_ge in E.
    apply in_app_or in Hy as [Hy|[<-|[]]]; [exact (Hc y Hy)|].
    unfold get_or0 in E. destruct (map_get maxIds (t_account x)) as [m|]; [|lia].
    exists m; split; [reflexivity|lia].
Qed.

Lemma map_get_in {V} (m : list (string * V)) k v : map_get m k = Some v -> In (k, v) m.
Proof.
  induction m as [|[k' v'] m IH]; cbn; [discriminate|].
  destruct (String.eqb_spec k k'); [intros H; inversion H; subst; left; reflexivity|].
  intros H; right; auto.
Qed.

Lemma map_set_keys {V} (m : list (string * V)) k v a :
  In a (map fst (map_set m k v)) -> a = k \/ In a (map fst m).
Proof.
  induction m as [|[k' v'] m IH]; cbn.
  - intros [<-|[]]; auto.
  - destruct (String.eqb k k'); cbn; intros [<-|H]; auto.
    destruct (IH H); auto.
Qed.

Lemma map_set_nodup {V} (m : list (string * V)) k v :
  keys_nodup m -> keys_nodup (map_set m k v).
Proof.
  unfold keys_nodup. induction m as [|[k' v'] m IH]; cbn; intros H.
  - constructor; [intros []|constructor].
  - inversion H as [|? ? Hn Hm]; subst.
    destruct (String.eqb_spec k k') as [<-|Ne]; cbn; constructor; auto.
    intros Hin. destruct (map_set_keys m k v k' Hin) as [->|Hin']; [apply Ne; reflexivity|].
    contradiction.
Qed.

Lemma map_get_in_nodup {V} (m : list (string * V)) k v :
  keys_nodup m -> In (k, v) m -> map_get m k = Some v.
Proof.
  unfold keys_nodup. induction m as [|[k' v'] m IH]; cbn; [intros _ []|].
  intros H [E|Hin]; inversion H as [|? ? Hn Hm]; subst.
  - inversion E; subst. rewrite String.eqb_refl; reflexivity.
  - destruct (String.eqb_spec k k') as [->|]; [|auto].
    exfalso; apply Hn. apply (in_map fst) in Hin; exact Hin.
Qed.

Lemma hbd_scan_covered ctx ids t rows acc maxIds :
  (forall a, 0 <= get_or0 ids a) -> covered maxIds acc -> keys_nodup maxIds ->
  covered (snd (hbd_scan ctx ids t rows acc maxIds)) (fst (hbd_scan ctx ids t rows acc maxIds)) /\
  keys_nodup (snd (hbd_scan ctx ids t rows acc maxIds)).
Proof.
  intros Hpos. revert acc maxIds; induction rows as [|row rows IH]; intros acc maxIds Hc Hk;
    cbn [hbd_scan]; [auto|].
  destruct (map_get ctx (h_to row)) as [[r k]|]; [|auto].
  destruct (h_id row <=? get_or0 ids (h_to row)) eqn:E1; [auto|].
  destruct (negb (includes (h_memo row) (memo_pattern r HBD))); [auto|].
  apply IH.
  - apply (covered_step maxIds acc (hbd_transfer row r t) Hc). cbn.
    apply Z.leb_gt in E1. specialize (Hpos (h_to row)). lia.
  - destruct (get_or0 maxIds (h_to row) <? h_id row); [apply map_set_nodup|]; exact Hk.
Qed.

Lemma hbd_scan_sound ctx ids t rows acc maxIds x :
  In x (fst (hbd_scan ctx ids t rows acc maxIds)) ->
  In x acc \/ exists row r k, In row rows /\ map_get ctx (h_to row) = Some (r, k) /\
    x = hbd_transfer row r t /\ get_or0 ids (h_to row) < h_id row /\
    includes (h_memo row) (memo_pattern r HBD) = true.
Proof.
  revert acc maxIds; induction rows as [|row rows IH]; intros acc maxIds; cbn [hbd_scan fst];
    [auto|].
  assert (Hl : forall acc' mx, In x (fst (hbd_scan ctx ids t rows acc' mx)) ->
            (forall y, In y acc' -> In y acc \/ exists r k,
               map_get ctx (h_to row) = Some (r, k) /\ y = hbd_transfer row r t /\
               get_or0 ids (h_to row) < h_id row /\
               includes (h_memo row) (memo_pattern r HBD) = true) ->
            In x acc \/ exists row' r k, In row' (row :: rows) /\
              map_get ctx (h_to row') = Some (r, k) /\ x = hbd_transfer row' r t /\
              get_or0 ids (h_to row') < h_id row' /\
              includes (h_memo row') (memo_pattern r HBD) = true).
  { intros acc' mx H Hacc. destruct (IH _ _ H) as [H'|(row' & r & k & ? & ? & ? & ? & ?)].
    - destruct (Hacc _ H') as [?|(r & k & ? & ? & ? & ?)]; [auto|].
      right. exists row, r, k. repeat split; auto. left; reflexivity.
    - right. exists row', r, k. repeat split; auto. right; assumption. }
  destruct (map_get ctx (h_to row)) as [[r k]|] eqn:Ec; [|intros H; apply (Hl _ _ H); auto].
  destruct (h_id row <=? get_or0 ids (h_to row)) eqn:E1; [intros H; apply (Hl _ _ H); auto|].
  destruct (includes (h_memo row) (memo_pattern r HBD)) eqn:E2; cbn [negb];
    [|intros H; apply (Hl _ _ H); auto].
  intros H; apply (Hl _ _ H). intros y Hy. apply in_app_or in Hy as [Hy|[<-|[]]]; [auto|].
  right. exists r, k. apply Z.leb_gt in E1. auto.
Qed.

Lemma he_scan_covered sym ctx ids rows acc maxIds ts mx :
  (forall a, 0 <= get_or0 ids a) -> covered maxIds acc -> keys_nodup maxIds ->
  he_scan sym ctx ids rows acc maxIds = Some (ts, mx) ->
  covered mx ts /\ keys_nodup mx.
Proof.
  intros Hpos. revert acc maxIds; induction rows as [|row rows IH]; intros acc maxIds Hc Hk;
    cbn [he_scan]; [intros H; inversion H; subst; auto|].
  destruct (cj_json row) as [| |j]; [apply IH; auto|discriminate|].
  destruct (contractPayload j) as [p|]; [|apply IH; auto].
  destruct (opt_str_eqb (contractName j) "tokens" && opt_str_eqb (contractAction j) "transfer"
            && opt_str_eqb (p_symbol p) (currency_str sym)); [|apply IH; auto].
  destruct (p_to p) as [to|]; [|apply IH; auto].
  destruct (if String.eqb to "" then None else map_get ctx to) as [[r k]|]; [|apply IH; auto].
  destruct (cj_id row <=? get_or0 ids to) eqn:E1; [apply IH; auto|].
  destruct (negb (includes (memo_string (p_memo p)) (memo_pattern r sym))); [apply IH; auto|].
  apply IH.
  - apply (covered_step maxIds acc (he_transfer sym row to r p) Hc). cbn.
    apply Z.leb_gt in E1. specialize (Hpos to). lia.
  - destruct (get_or0 maxIds to <? cj_id row); [apply map_set_nodup|]; exact Hk.
Qed.

Lemma opt_str_eqb_true o s : opt_str_eqb o s = true -> o = Some s.
Proof. destruct o; cbn; [intros H; apply String.eqb_eq in H; subst; reflexivity|discriminate]. Qed.

Lemma he_scan_sound sym ctx ids rows acc maxIds ts mx x :
  he_scan sym ctx ids rows acc maxIds = Some (ts, mx) -> In x ts ->
  In x acc \/ exists row, In row rows /\ he_accepts sym ctx row x /\ get_or0 ids (t_account x) < t_id x.
Proof.
  revert acc maxIds; induction rows as [|row rows IH]; intros acc maxIds; cbn [he_scan].
  - intros H; inversion H; subst; auto.
  - assert (Hl : forall acc' mx', he_scan sym ctx ids rows acc' mx' = Some (ts, mx) -> In x ts ->
              (forall y, In y acc' -> In y acc \/ (he_accepts sym ctx row y /\ get_or0 ids (t_account y) < t_id y)) ->
              In x acc \/ exists row', In row' (row :: rows) /\ he_accepts sym ctx row' x /\ get_or0 ids (t_account x) < t_id x).
    { intros acc' mx' H Hx Hacc. destruct (IH _ _ H Hx) as [H'|(row' & Hr & Ha)].
      - destruct (Hacc _ H') as [?|?]; [auto|]. right; exists row; split; [left|]; auto.
      - right; exists row'; split; [right|]; auto. }
    assert (Hs : forall y, In y acc -> In y acc \/ (he_accepts sym ctx row y /\ get_or0 ids (t_account y) < t_id y)) by auto.
    destruct (cj_json row) as [| |j] eqn:Ej; [intros H Hx; exact (Hl _ _ H Hx Hs)|discriminate|].
    destruct (contractPayload j) as [p|] eqn:Ep; [|intros H Hx; exact (Hl _ _ H Hx Hs)].
    destruct (opt_str_eqb (contractName j) "tokens") eqn:Q1; cbn [andb];
      [|intros H Hx; exact (Hl _ _ H Hx Hs)].
    destruct (opt_str_eqb (contractAction j) "transfer") eqn:Q2; cbn [andb];
      [|intros H Hx; exact (Hl _ _ H Hx Hs)].
    destruct (opt_str_eqb (p_symbol p) (currency_str sym)) eqn:Q3;
      [|intros H Hx; exact (Hl _ _ H Hx Hs)].
    destruct (p_to p) as [to|] eqn:Et; [|intros H Hx; exact (Hl _ _ H Hx Hs)].
    destruct (if String.eqb to "" then None else map_get ctx to) as [[r k]|] eqn:Ec;
      [|intros H Hx; exact (Hl _ _ H Hx Hs)].
    assert (Ec' : map_get ctx to = Some (r, k))
      by (destruct (String.eqb to ""); [discriminate|exact Ec]).
    destruct (cj_id row <=? get_or0 ids to) eqn:E1; [intros H Hx; exact (Hl _ _ H Hx Hs)|].
    destruct (includes (memo_string (p_memo p)) (memo_pattern r sym)) eqn:E2; cbn [negb];
      [|intros H Hx; exact (Hl _ _ H Hx Hs)].
    intros H Hx. apply (Hl _ _ H Hx). intros y Hy.
    apply in_app_or in Hy as [Hy|[<-|[]]]; [auto|right].
    split; [|cbn; apply Z.leb_gt in E1; exact E1].
    exists j, p, to, r, k.
    apply opt_str_eqb_true in Q1, Q2, Q3. repeat split; auto.
Qed.

Lemma write_maxIds_frame c l e s k :
  (forall a m, In (a, m) l -> k <> lastId_key a c) ->
  cursor (snd (write_maxIds c l e s)) k = cursor s k.
Proof.
  intros H. destruct (write_maxIds_spec c l e s) as [_ Hw].
  destruct (Hw k) as [E|(a & m & Hin & Hk & _)]; [exact E|].
  exfalso; exact (H a m Hin Hk).
Qed.

Lemma write_maxIds_ok c l e s :
  keys_nodup l -> fst (write_maxIds c l e s) = Some tt ->
  forall a m, In (a, m) l -> cursor (snd (write_maxIds c l e s)) (lastId_key a c) = m.
Proof.
  unfold keys_nodup. revert s; induction l as [|[a0 m0] l IH]; intros s Hn; cbn [write_maxIds].
  - intros _ a m [].
  - inversion Hn as [|? ? Hn0 Hn1]; subst.
    unfold setLastId, bind, call, getS, putS, ret.
    destruct (fails e (OSet (lastId_key a0 c))); cbn [fst snd]; [discriminate|].
    intros Hok a m [E|Hin].
    + inversion E; subst a m. rewrite write_maxIds_frame.
      * unfold cursor; cbn [kv]. rewrite String.eqb_refl. reflexivity.
      * intros a' m' Hin' Ek. apply lastId_key_inj in Ek. subst a'.
        apply Hn0. apply (in_map fst) in Hin'. exact Hin'.
    + exact (IH _ Hn1 Hok a m Hin).
Qed.

Lemma get_or0_nonneg ids accts s c :
  (forall k, 0 <= cursor s k) ->
  (forall x, map_get ids x =
     if in_dec String.string_dec x accts then Some (cursor s (lastId_key x c)) else map_get [] x) ->
  forall a, 0 <= get_or0 ids a.
Proof.
  intros Hpos H a. unfold get_or0. rewrite H.
  destruct (in_dec String.string_dec a accts); [apply Hpos|cbn; lia].
Qed.

Lemma pollHBDBatched_ok accts ctx e s ts s' :
  (forall a, map_get ctx a <> None -> In a accts) ->
  (forall k, 0 <= cursor s k) ->
  pollHBDBatched accts ctx e s = (Some ts, s') ->
  forall x, In x ts ->
    (exists mn row, In row (hbd_query (ledger e) accts mn) /\ hbd_accepts ctx (now e) row x) /\
    t_symbol x = HBD /\
    cursor s (lastId_key (t_account x) HBD) < t_id x <= cursor s' (lastId_key (t_account x) HBD).
Proof.
  intros Hctx Hpos. unfold pollHBDBatched.
  destruct accts as [|a0 l0]; [cbn; intros H; inversion H; subst; intros x []|].
  unfold bind.
  destruct (read_lastIds_spec HBD (a0 :: l0) [] MAX_SAFE_INTEGER e s) as [Hs Hids].
  destruct (read_lastIds HBD (a0 :: l0) [] MAX_SAFE_INTEGER e s) as [[[ids mn]|] s1] eqn:E1;
    cbn [fst snd] in Hs; subst s1; [|discriminate].
  specialize (Hids ids mn eq_refl).
  unfold hbd_select, bind, call, askE, ret.
  destruct (fails e OHbdQuery); cbn [fst snd]; [discriminate|].
  set (rows := hbd_query (ledger e) (a0 :: l0) mn).
  pose proof (get_or0_nonneg ids (a0 :: l0) s HBD Hpos Hids) as Hip.
  destruct (hbd_scan_covered ctx ids (now e) rows [] [] Hip (covered_nil _) (NoDup_nil _))
    as [Hcov Hnd].
  pose proof (hbd_scan_sound ctx ids (now e) rows [] []) as Hsound.
  destruct (hbd_scan ctx ids (now e) rows [] []) as [ts0 mx] eqn:E2; cbn [fst snd] in *.
  pose proof (write_maxIds_ok HBD mx e s Hnd) as Hw.
  destruct (write_maxIds HBD mx e s) as [[[]|] s2]; cbn [fst snd] in *; [|discriminate].
  intros H; inversion H; subst ts s2. intros x Hx.
  destruct (Hsound x Hx) as [[]|(row & r & k & Hrow & Hr & -> & Hlt & Hm)].
  cbn [t_account t_symbol t_id hbd_transfer].
  split; [exists mn, row; split; [exact Hrow|exists r, k; auto]|].
  split; [reflexivity|].
  assert (Hin : In (h_to row) (a0 :: l0)) by (apply Hctx; congruence).
  rewrite <- (get_or0_read ids (a0 :: l0) s HBD (h_to row) Hids Hin).
  split; [exact Hlt|].
  destruct (Hcov _ Hx) as (m & Hget & Hle). cbn [t_account t_id hbd_transfer] in Hget, Hle.
  rewrite (Hw eq_refl _ _ (map_get_in _ _ _ Hget)). exact Hle.
Qed.

Lemma pollHiveEngineTokenBatched_ok sym accts ctx e s ts s' :
  (forall a, map_get ctx a <> None -> In a accts) ->
  (forall k, 0 <= cursor s k) ->
  pollHiveEngineTokenBatched sym accts ctx e s = (Some ts, s') ->
  forall x, In x ts ->
    (exists lo hi mn row, In row (cj_query (ledger e) lo hi mn) /\ he_accepts sym ctx row x) /\
    t_symbol x = sym /\
    cursor s (lastId_key (t_account x) sym) < t_id x <= cursor s' (lastId_key (t_account x) sym).
Proof.
  intros Hctx Hpos. unfold pollHiveEngineTokenBatched.
  destruct accts as [|a0 l0]; [cbn; intros H; inversion H; subst; intros x []|].
  unfold bind.
  destruct (read_lastIds_spec sym (a0 :: l0) [] MAX_SAFE_INTEGER e s) as [Hs Hids].
  destruct (read_lastIds sym (a0 :: l0) [] MAX_SAFE_INTEGER e s) as [[[ids mn]|] s1] eqn:E1;
    cbn [fst snd] in Hs; subst s1; [|discriminate].
  specialize (Hids ids mn eq_refl).
  unfold head_select, cj_select, bind, call, askE, ret, throw.
  destruct (fails e (OConnect sym)); cbn [fst snd]; [discriminate|].
  destruct (fails e (OSession sym 0)); cbn [fst snd]; [discriminate|].
  destruct (fails e (OSession sym 1)); cbn [fst snd]; [discriminate|].
  destruct (fails e (OBlockQuery sym)); cbn [fst snd]; [discriminate|].
  destruct (fails e (OCjQuery sym)); cbn [fst snd]; [discriminate|].
  set (lo := current_block (head_query (ledger e)) - 10000).
  set (hi := current_block (head_query (ledger e))).
  set (rows := cj_query (ledger e) lo hi mn).
  assert (Hrows : forall row, In row rows -> In row (cj_query (ledger e) lo hi mn)) by auto.
  clearbody rows.
  destruct rows as [|r0 rs0]; [intros H; inversion H; subst; intros x []|].
  pose proof (get_or0_nonneg ids (a0 :: l0) s sym Hpos Hids) as Hip.
  destruct (he_scan sym ctx ids (r0 :: rs0) [] []) as [[ts0 mx]|] eqn:E2; [|discriminate].
  destruct (he_scan_covered sym ctx ids (r0 :: rs0) [] [] ts0 mx Hip (covered_nil _)
              (NoDup_nil _) E2) as [Hcov Hnd].
  pose proof (write_maxIds_ok sym mx e s Hnd) as Hw.
  destruct (write_maxIds sym mx e s) as [[[]|] s2]; cbn [fst snd] in *; [|discriminate].
  intros H; inversion H; subst ts s2. intros x Hx.
  destruct (he_scan_sound sym ctx ids (r0 :: rs0) [] [] ts0 mx x E2 Hx)
    as [[]|(row & Hrow & Hacc & Hlt)].
  assert (Hsym : t_symbol x = sym /\ map_get ctx (t_account x) <> None).
  { destruct Hacc as (j & p & to & r & k & _ & _ & _ & _ & _ & _ & Hr & -> & _).
    cbn. split; [reflexivity|congruence]. }
  destruct Hsym as [Hsym Hin].
  split; [exists lo, hi, mn, row; auto|].
  split; [exact Hsym|].
  rewrite <- (get_or0_read ids (a0 :: l0) s sym (t_account x) Hids (Hctx _ Hin)).
  split; [exact Hlt|].
  destruct (Hcov _ Hx) as (m & Hget & Hle).
  rewrite (Hw eq_refl _ _ (map_get_in _ _ _ Hget)). exact Hle.
Qed.

Lemma cursor_publish_all ts e s k : cursor (snd (publish_all ts e s)) k = cursor s k.
Proof. unfold cursor. rewrite publish_all_kv. reflexivity. Qed.

Lemma nonneg_mono s s' : (forall k, 0 <= cursor s k) -> cursors_mono s s' -> forall k, 0 <= cursor s' k.
Proof. intros H1 H2 k; specialize (H1 k); specialize (H2 k); lia. Qed.

(** Every transfer a cycle returns lies above the cursor of its account
    and currency at the start of the cycle, and at or below it at the end. *)
Lemma pollAllTransfers_with_ok rs e s ts s' :
  (forall k, 0 <= cursor s k) ->
  pollAllTransfers_with rs e s = (Some ts, s') ->
  forall x, In x ts ->
    cursor s (lastId_key (t_account x) (t_symbol x)) < t_id x <=
    cursor s' (lastId_key (t_account x) (t_symbol x)).
Proof.
  intros Hpos. unfold pollAllTransfers_with.
  set (accts := accountList (getAllAccounts rs)).
  set (ctx := build_ctx (getAllAccounts rs) []).
  assert (Hctx : forall a, map_get ctx a <> None -> In a accts) by apply ctx_in_accounts.
  destruct (pollHBDBatched_mono accts ctx e s Hctx) as [M1 _].
  pose proof (pollHBDBatched_ok accts ctx e s) as OK1.
  destruct (pollHBDBatched accts ctx e s) as [[h|] s1] eqn:E1; cbn [snd] in M1;
    [|intros H; inversion H; subst; intros x []].
  specialize (OK1 h s1 Hctx Hpos eq_refl).
  pose proof (nonneg_mono s s1 Hpos M1) as Hpos1.
  destruct (pollHiveEngineTokenBatched_mono EURO accts ctx e s1 Hctx) as [M2 _].
  pose proof (pollHiveEngineTokenBatched_ok EURO accts ctx e s1) as OK2.
  assert (L1 : forall x, In x h -> forall s', cursors_mono s1 s' ->
            cursor s (lastId_key (t_account x) (t_symbol x)) < t_id x <=
            cursor s' (lastId_key (t_account x) (t_symbol x))).
  { intros x Hx s'' Hm. destruct (OK1 x Hx) as (_ & -> & Hl & Hu).
    specialize (Hm (lastId_key (t_account x) HBD)). lia. }
  destruct (pollHiveEngineTokenBatched EURO accts ctx e s1) as [[eu|] s2] eqn:E2;
    cbn [snd] in M2; [|intros H; inversion H; subst; intros x Hx; apply (L1 x Hx); exact M2].
  specialize (OK2 eu s2 Hctx Hpos1 eq_refl).
  pose proof (nonneg_mono s1 s2 Hpos1 M2) as Hpos2.
  destruct (pollHiveEngineTokenBatched_mono OCLT accts ctx e s2 Hctx) as [M3 _].
  pose proof (pollHiveEngineTokenBatched_ok OCLT accts ctx e s2) as OK3.
  assert (L2 : forall x, In x (h ++ eu)%list -> forall s', cursors_mono s2 s' ->
            cursor s (lastId_key (t_account x) (t_symbol x)) < t_id x <=
            cursor s' (lastId_key (t_account x) (t_symbol x))).
  { intros x Hx s'' Hm. apply in_app_or in Hx as [Hx|Hx].
    - apply (L1 x Hx). exact (cursors_mono_trans _ _ _ M2 Hm).
    - destruct (OK2 x Hx) as (_ & -> & Hl & Hu).
      specialize (Hm (lastId_key (t_account x) EURO)).
      specialize (M1 (lastId_key (t_account x) EURO)). lia. }
  destruct (pollHiveEngineTokenBatched OCLT accts ctx e s2) as [[oc|] s3] eqn:E3;
    cbn [snd] in M3; [|intros H; inversion H; subst; intros x Hx; apply (L2 x Hx); exact M3].
  specialize (OK3 oc s3 Hctx Hpos2 eq_refl).
  pose proof (cursor_publish_all (h ++ eu ++ oc) e s3) as Hp.
  destruct (publish_all (h ++ eu ++ oc) e s3) as [u s4]; cbn [snd] in Hp.
  intros H; inversion H; subst ts s'. intros x Hx.
  rewrite Hp. rewrite app_assoc in Hx. apply in_app_or in Hx as [Hx|Hx].
  - apply (L2 x Hx). exact M3.
  - destruct (OK3 x Hx) as (_ & -> & Hl & Hu).
    specialize (M1 (lastId_key (t_account x) OCLT)).
    specialize (M2 (lastId_key (t_account x) OCLT)). lia.
Qed.

(** Two successive polling cycles never return the same transfer twice:
    for one account and currency, every transfer returned by the second
    cycle has a larger id than every one returned by the first, whatever
    the ledger answers the second time. *)
Theorem cycles_never_redetect rs e1 e2 s :
  (forall k, 0 <= cursor s k) ->
  let s1 := snd (pollAllTransfers_with rs e1 s) in
  forall ts1 ts2 x y,
    fst (pollAllTransfers_with rs e1 s) = Some ts1 ->
    fst (pollAllTransfers_with rs e2 s1) = Some ts2 ->
    In x ts1 -> In y ts2 ->
    t_account x = t_account y -> t_symbol x = t_symbol y ->
    t_id x < t_id y.
Proof.
  intros Hpos s1 ts1 ts2 x y E1 E2 Hx Hy Ha Hs.
  pose proof (nonneg_mono s s1 Hpos (pollAllTransfers_with_mono rs e1 s)) as Hp1.
  destruct (pollAllTransfers_with rs e1 s) as [r1 s1'] eqn:C1; cbn [fst] in E1; subst r1.
  destruct (pollAllTransfers_with rs e2 s1) as [r2 s2'] eqn:C2; cbn [fst] in E2; subst r2.
  pose proof (pollAllTransfers_with_ok rs e1 s ts1 s1' Hpos C1 x Hx) as [_ Hu].
  pose proof (pollAllTransfers_with_ok rs e2 s1 ts2 s2' Hp1 C2 y Hy) as [Hl _].
  unfold s1 in Hl; cbn [snd] in Hl. rewrite Ha, Hs in Hu. lia.
Qed.

Lemma pollHBDBatched_sound accts ctx e s ts s' :
  pollHBDBatched accts ctx e s = (Some ts, s') ->
  forall x, In x ts ->
    exists mn row, In row (hbd_query (ledger e) accts mn) /\ hbd_accepts ctx (now e) row x.
Proof.
  unfold pollHBDBatched.
  destruct accts as [|a0 l0]; [cbn; intros H; inversion H; subst; intros x []|].
  unfold bind.
  destruct (read_lastIds HBD (a0 :: l0) [] MAX_SAFE_INTEGER e s) as [[[ids mn]|] s1];
    [|discriminate].
  unfold hbd_select, bind, call, askE, ret.
  destruct (fails e OHbdQuery); cbn [fst snd]; [discriminate|].
  pose proof (hbd_scan_sound ctx ids (now e) (hbd_query (ledger e) (a0 :: l0) mn) [] []) as Hsound.
  destruct (hbd_scan ctx ids (now e) _ [] []) as [ts0 mx]; cbn [fst snd] in *.
  destruct (write_maxIds HBD mx e s1) as [[[]|] s2]; [|discriminate].
  intros H; inversion H; subst ts s2. intros x Hx.
  destruct (Hsound x Hx) as [[]|(row & r & k & Hrow & Hr & -> & _ & Hm)].
  exists mn, row. split; [exact Hrow|exists r, k; auto].
Qed.

Lemma pollHiveEngineTokenBatched_sound sym accts ctx e s ts s' :
  pollHiveEngineTokenBatched sym accts ctx e s = (Some ts, s') ->
  forall x, In x ts ->
    exists lo hi mn row, In row (cj_query (ledger e) lo hi mn) /\ he_accepts sym ctx row x.
Proof.
  unfold pollHiveEngineTokenBatched.
  destruct accts as [|a0 l0]; [cbn; intros H; inversion H; subst; intros x []|].
  unfold bind.
  destruct (read_lastIds sym (a0 :: l0) [] MAX_SAFE_INTEGER e s) as [[[ids mn]|] s1];
    [|discriminate].
  unfold head_select, cj_select, bind, call, askE, ret, throw.
  destruct (fails e (OConnect sym)); cbn [fst snd]; [discriminate|].
  destruct (fails e (OSession sym 0)); cbn [fst snd]; [discriminate|].
  destruct (fails e (OSession sym 1)); cbn [fst snd]; [discriminate|].
  destruct (fails e (OBlockQuery sym)); cbn [fst snd]; [discriminate|].
  destruct (fails e (OCjQuery sym)); cbn [fst snd]; [discriminate|].
  set (lo := current_block (head_query (ledger e)) - 10000).
  set (hi := current_block (head_query (ledger e))).
  set (rows := cj_query (ledger e) lo hi mn).
  assert (Hrows : forall row, In row rows -> In row (cj_query (ledger e) lo hi mn)) by auto.
  clearbody rows.
  destruct rows as [|r0 rs0]; [intros H; inversion H; subst; intros x []|].
  destruct (he_scan sym ctx ids (r0 :: rs0) [] []) as [[ts0 mx]|] eqn:E2; [|discriminate].
  destruct (write_maxIds sym mx e s1) as [[[]|] s2]; cbn [fst snd] in *; [|discriminate].
  intros H; inversion H; subst ts s2. intros x Hx.
  destruct (he_scan_sound sym ctx ids (r0 :: rs0) [] [] ts0 mx x E2 Hx)
    as [[]|(row & Hrow & Hacc & _)].
  exists lo, hi, mn, row; auto.
Qed.

(** Every transfer a polling cycle returns is addressed to a configured
    account, carries that account's restaurant id, has a memo containing
    the restaurant's filter for its currency, and comes from a row the
    ledger answered: an HBD row for HBD, a custom_json row for EURO and
    OCLT. *)
Theorem cycle_transfers_configured rs e s :
  match fst (pollAllTransfers_with rs e s) with
  | Some ts => forall x, In x ts ->
      exists r k, map_get (build_ctx (getAllAccounts rs) []) (t_account x) = Some (r, k) /\
        t_restaurant_id x = rc_id r /\
        includes (t_memo x) (memo_pattern r (t_symbol x)) = true /\
        ((t_symbol x = HBD /\ exists mn row, In row (hbd_query (ledger e) (accountList (getAllAccounts rs)) mn) /\ t_id x = h_id row) \/
         ((t_symbol x = EURO \/ t_symbol x = OCLT) /\
          exists lo hi mn row, In row (cj_query (ledger e) lo hi mn) /\ t_id x = cj_id row))
  | None => True
  end.
Proof.
  unfold pollAllTransfers_with.
  set (accts := accountList (getAllAccounts rs)).
  set (ctx := build_ctx (getAllAccounts rs) []).
  assert (H1 : forall h s1, pollHBDBatched accts ctx e s = (Some h, s1) -> forall x, In x h ->
      exists r k, map_get ctx (t_account x) = Some (r, k) /\ t_restaurant_id x = rc_id r /\
        includes (t_memo x) (memo_pattern r (t_symbol x)) = true /\
        ((t_symbol x = HBD /\ exists mn row, In row (hbd_query (ledger e) accts mn) /\ t_id x = h_id row) \/
         ((t_symbol x = EURO \/ t_symbol x = OCLT) /\
          exists lo hi mn row, In row (cj_query (ledger e) lo hi mn) /\ t_id x = cj_id row))).
  { intros h s1 E x Hx.
    destruct (pollHBDBatched_sound _ _ _ _ _ _ E x Hx) as (mn & row & Hrow & r & k & Hr & -> & Hm).
    exists r, k. cbn. split; [exact Hr|]. split; [reflexivity|]. split; [exact Hm|].
    left. split; [reflexivity|exists mn, row; auto]. }
  assert (H2 : forall sym s0 l s1, (sym = EURO \/ sym = OCLT) ->
      pollHiveEngineTokenBatched sym accts ctx e s0 = (Some l, s1) -> forall x, In x l ->
      exists r k, map_get ctx (t_account x) = Some (r, k) /\ t_restaurant_id x = rc_id r /\
        includes (t_memo x) (memo_pattern r (t_symbol x)) = true /\
        ((t_symbol x = HBD /\ exists mn row, In row (hbd_query (ledger e) accts mn) /\ t_id x = h_id row) \/
         ((t_symbol x = EURO \/ t_symbol x = OCLT) /\
          exists lo hi mn row, In row (cj_query (ledger e) lo hi mn) /\ t_id x = cj_id row))).
  { intros sym s0 l s1 Hsym E x Hx.
    destruct (pollHiveEngineTokenBatched_sound _ _ _ _ _ _ _ E x Hx)
      as (lo & hi & mn & row & Hrow & j & p & to & r & k & _ & _ & _ & _ & _ & _ & Hr & -> & Hm).
    exists r, k. cbn. split; [exact Hr|]. split; [reflexivity|]. split; [exact Hm|].
    right. split; [exact Hsym|exists lo, hi, mn, row; auto]. }
  destruct (pollHBDBatched accts ctx e s) as [[h|] s1] eqn:E1; cbn [fst];
    [|intros x []].
  destruct (pollHiveEngineTokenBatched EURO accts ctx e s1) as [[eu|] s2] eqn:E2; cbn [fst];
    [|exact (H1 h s1 eq_refl)].
  destruct (pollHiveEngineTokenBatched OCLT accts ctx e s2) as [[oc|] s3] eqn:E3; cbn [fst].
  - destruct (publish_all (h ++ eu ++ oc) e s3) as [u s4]; cbn [fst].
    intros x Hx. apply in_app_or in Hx as [Hx|Hx]; [exact (H1 h s1 eq_refl x Hx)|].
    apply in_app_or in Hx as [Hx|Hx].
    + exact (H2 EURO s1 eu s2 (or_introl eq_refl) E2 x Hx).
    + exact (H2 OCLT s2 oc s3 (or_intror eq_refl) E3 x Hx).
  - intros x Hx. apply in_app_or in Hx as [Hx|Hx]; [exact (H1 h s1 eq_refl x Hx)|].
    exact (H2 EURO s1 eu s2 (or_introl eq_refl) E2 x Hx).
Qed.

Lemma he_scan_null sym ctx ids rows acc maxIds row :
  In row rows -> cj_json row = JNull -> he_scan sym ctx ids rows acc maxIds = None.
Proof.
  intros Hin Hj. revert acc maxIds; induction rows as [|r0 rows IH]; intros acc maxIds;
    [destruct Hin|].
  destruct Hin as [<-|Hin]; cbn [he_scan]; [rewrite Hj; reflexivity|].
  specialize (IH Hin).
  destruct (cj_json r0) as [| |j]; [apply IH|reflexivity|].
  destruct (contractPayload j) as [p|]; [|apply IH].
  destruct (_ && _); [|apply IH].
  destruct (p_to p) as [to|]; [|apply IH].
  destruct (if String.eqb to "" then None else map_get ctx to) as [[r k]|]; [|apply IH].
  destruct (cj_id r0 <=? get_or0 ids to); [apply IH|].
  destruct (negb _); apply IH.
Qed.

Lemma read_lastIds_store c accts ids mn e s : snd (read_lastIds c accts ids mn e s) = s.
Proof. apply read_lastIds_spec. Qed.

(** A [null] JSON row in the window aborts the Hive-Engine detector
    before any cursor is written. *)
Lemma pollHiveEngineTokenBatched_null sym accts ctx e s :
  (forall lo hi mn, exists row, In row (cj_query (ledger e) lo hi mn) /\ cj_json row = JNull) ->
  accts <> [] ->
  pollHiveEngineTokenBatched sym accts ctx e s = (None, s).
Proof.
  intros Hn Ha. unfold pollHiveEngineTokenBatched.
  destruct accts as [|a0 l0]; [contradiction|].
  unfold bind.
  pose proof (read_lastIds_store sym (a0 :: l0) [] MAX_SAFE_INTEGER e s) as Hs.
  destruct (read_lastIds sym (a0 :: l0) [] MAX_SAFE_INTEGER e s) as [[[ids mn]|] s1];
    cbn [snd] in Hs; subst s1; [|reflexivity].
  unfold head_select, cj_select, bind, call, askE, ret, throw.
  destruct (fails e (OConnect sym)); cbn [fst snd]; [reflexivity|].
  destruct (fails e (OSession sym 0)); cbn [fst snd]; [reflexivity|].
  destruct (fails e (OSession sym 1)); cbn [fst snd]; [reflexivity|].
  destruct (fails e (OBlockQuery sym)); cbn [fst snd]; [reflexivity|].
  destruct (fails e (OCjQuery sym)); cbn [fst snd]; [reflexivity|].
  set (lo := current_block (head_query (ledger e)) - 10000).
  set (hi := current_block (head_query (ledger e))).
  destruct (Hn lo hi mn) as (row & Hrow & Hj).
  set (rows := cj_query (ledger e) lo hi mn) in *. clearbody rows.
  destruct rows as [|r0 rs0]; [destruct Hrow|].
  rewrite (he_scan_null sym ctx ids (r0 :: rs0) [] [] row Hrow Hj). reflexivity.
Qed.

(** When the custom_json query always answers a row whose [json] is
    [null], both token detectors throw: the cycle returns only the HBD
    transfers and publishes nothing to the transfer streams. *)
Theorem null_json_row_blocks_publish rs e s :
  rs <> [] ->
  (forall lo hi mn, exists row, In row (cj_query (ledger e) lo hi mn) /\ cj_json row = JNull) ->
  published (snd (pollAllTransfers_with rs e s)) = published s /\
  fst (pollAllTransfers_with rs e s) =
    Some (match fst (pollHBDBatched (accountList (getAllAccounts rs))
                       (build_ctx (getAllAccounts rs) []) e s) with
          | Some h => h | None => [] end).
Proof.
  intros Hrs Hn. unfold pollAllTransfers_with.
  set (accts := accountList (getAllAccounts rs)).
  set (ctx := build_ctx (getAllAccounts rs) []).
  assert (Ha : accts <> []) by (destruct rs; [contradiction|discriminate]).
  assert (Hctx : forall a, map_get ctx a <> None -> In a accts) by apply ctx_in_accounts.
  destruct (pollHBDBatched_mono accts ctx e s Hctx) as [_ P1].
  destruct (pollHBDBatched accts ctx e s) as [[h|] s1]; cbn [snd fst] in *; [|auto].
  rewrite (pollHiveEngineTokenBatched_null EURO accts ctx e s1 Hn Ha). auto.
Qed.

Lemma digit_val_char d : 0 <= d < 10 -> digit_val (digit_char d) = Some d.
Proof.
  intros H. assert (d = 0 \/ d = 1 \/ d = 2 \/ d = 3 \/ d = 4 \/ d = 5 \/ d = 6 \/ d = 7 \/
                    d = 8 \/ d = 9) as Hd by lia.
  repeat (destruct Hd as [->|Hd]; [reflexivity|]); subst; reflexivity.
Qed.

Lemma dec_digits_value f n acc a :
  0 <= n < 10 ^ Z.of_nat f ->
  exists k, 0 <= k /\ digits_prefix (dec_digits f n acc) a = digits_prefix acc (a * 10 ^ k + n).
Proof.
  revert n acc a; induction f as [|f IH]; intros n acc a Hn; cbn [dec_digits].
  - exists 0. cbn in Hn. replace n with 0 by lia. split; [lia|]. f_equal; lia.
  - destruct (n <? 10) eqn:E.
    + apply Z.ltb_lt in E. exists 1. split; [lia|]. cbn [digits_prefix].
      rewrite digit_val_char by lia. f_equal; lia.
    + apply Z.ltb_ge in E.
      assert (H10 : 0 <= n / 10 < 10 ^ Z.of_nat f).
      { rewrite Nat2Z.inj_succ, Z.pow_succ_r in Hn by lia.
        split; [apply Z.div_pos; lia|]. apply Z.div_lt_upper_bound; lia. }
      destruct (IH (n / 10) (String (digit_char (n mod 10)) acc) a H10) as (k & Hk & E1).
      exists (k + 1). split; [lia|]. rewrite E1. cbn [digits_prefix].
      rewrite digit_val_char by (pose proof (Z.mod_pos_bound n 10); lia).
      f_equal. rewrite Z.pow_add_r by lia.
      pose proof (Z.div_mod n 10). lia.
Qed.

Lemma dec_digits_head f n acc :
  0 <= n -> exists c r, dec_digits (S f) n acc = String c r /\ digit_val c <> None.
Proof.
  revert n acc; induction f as [|f IH]; intros n acc Hn; cbn [dec_digits].
  - destruct (n <? 10) eqn:E.
    + apply Z.ltb_lt in E. eexists _, _. split; [reflexivity|]. rewrite digit_val_char by lia. discriminate.
    + eexists _, _. split; [reflexivity|].
      rewrite digit_val_char by (pose proof (Z.mod_pos_bound n 10); lia). discriminate.
  - destruct (n <? 10) eqn:E.
    + apply Z.ltb_lt in E. eexists _, _. split; [reflexivity|]. rewrite digit_val_char by lia. discriminate.
    + apply IH. apply Z.div_pos; lia.
Qed.

Lemma fuel_enough n : 0 <= n -> 0 <= n < 10 ^ Z.of_nat (S (Z.to_nat (Z.log2 n))).
Proof.
  intros Hn. split; [exact Hn|].
  rewrite Nat2Z.inj_succ, Z2Nat.id by apply Z.log2_nonneg.
  destruct (Z.eq_dec n 0) as [->|Hn0]; [cbn; lia|].
  destruct (Z.log2_spec n ltac:(lia)) as [_ H2].
  apply (Z.lt_le_trans _ _ _ H2). rewrite <- Z.add_1_r.
  apply Z.pow_le_mono_l. lia.
Qed.

Lemma parse_dec n :
  0 <= n -> parseInt10 (dec_digits (S (Z.to_nat (Z.log2 n))) n "") = NNum n.
Proof.
  intros Hn. destruct (dec_digits_head (Z.to_nat (Z.log2 n)) n "" Hn) as (c & r & E & Hc).
  destruct (dec_digits_value _ n "" 0 (fuel_enough n Hn)) as (k & _ & V).
  unfold parseInt10. rewrite E. cbn [trim_start].
  destruct (digit_val c) as [d|] eqn:Ed; [|contradiction].
  assert (Hs : is_js_space c = false).
  { unfold digit_val in Ed. unfold is_js_space.
    destruct (andb _ _) eqn:A; [|discriminate]. apply andb_true_iff in A as [A1 A2].
    apply Nat.leb_le in A1. apply Nat.leb_le in A2.
    destruct (nat_of_ascii c) as [|[|[|[|[|[|[|[|[|[|[|[|[|[|m]]]]]]]]]]]]]]; try lia.
    do 32 (destruct m as [|m]; [lia|]). reflexivity. }
  rewrite Hs.
  assert (Hns : c <> "-"%char /\ c <> "+"%char) by (split; intros ->; discriminate).
  destruct c as [b0 b1 b2 b3 b4 b5 b6 b7].
  destruct b0, b1, b2, b3, b4, b5, b6, b7;
    (try (exfalso; apply (proj1 Hns); reflexivity));
    (try (exfalso; apply (proj2 Hns); reflexivity));
    cbn [andb]; rewrite <- E, Ed, V; cbn; f_equal; lia.
Qed.

Lemma parseInt_js_String n :
  Z.abs n <= MAX_SAFE_INTEGER -> parseInt10 (js_String n) = NNum n.
Proof.
  intros _. unfold js_String. destruct (n <? 0) eqn:En; [|apply parse_dec; apply Z.ltb_ge in En; lia].
  apply Z.ltb_lt in En.
  destruct (dec_digits_head (Z.to_nat (Z.log2 (- n))) (- n) "" ltac:(lia)) as (c & r & E & Hc).
  destruct (dec_digits_value _ (- n) "" 0 (fuel_enough (- n) ltac:(lia))) as (k & _ & V).
  unfold parseInt10. rewrite E. cbn -[digits_prefix digit_val is_js_space].
  replace (is_js_space "-") with false by reflexivity.
  destruct (digit_val c) as [d|] eqn:Ed; [|contradiction].
  rewrite <- E, V. cbn [digits_prefix]. f_equal; lia.

Qed.

Lemma js_String_nonempty n : js_String n <> "".
Proof.
  unfold js_String. destruct (n <? 0) eqn:E; [discriminate|].
  apply Z.ltb_ge in E. destruct (dec_digits_head (Z.to_nat (Z.log2 n)) n "" E) as (c & r & -> & _).
  discriminate.
Qed.

Lemma js_String_head n :
  exists c r, js_String n = String c r /\ (c = "-"%char \/ digit_val c <> None).
Proof.
  unfold js_String. destruct (n <? 0) eqn:E.
  - eexists; eexists; split; [reflexivity|left; reflexivity].
  - apply Z.ltb_ge in E. destruct (dec_digits_head (Z.to_nat (Z.log2 n)) n "" E) as (c & r & -> & Hc).
    exists c, r. split; [reflexivity|right; exact Hc].
Qed.

Lemma upstash_decode_js_String n :
  Z.abs n <= MAX_SAFE_INTEGER -> upstash_decode (js_String n) = JNum n.
Proof.
  intros Hn. unfold upstash_decode.
  destruct (js_String_head n) as (c & r & E & Hc).
  assert (Hw : forall w d r', w = String d r' -> digit_val d = None -> d <> "-"%char ->
                 String.eqb (js_String n) w = false).
  { intros w d r' -> Hd Hm. rewrite E. cbn [String.eqb].
    destruct (Ascii.eqb_spec c d) as [->|]; [|reflexivity].
    destruct Hc as [->|Hc]; [congruence|congruence]. }
  rewrite (Hw "true" "t"%char "rue" eq_refl eq_refl ltac:(discriminate)).
  rewrite (Hw "false" "f"%char "alse" eq_refl eq_refl ltac:(discriminate)).
  rewrite (Hw "null" "n"%char "ull" eq_refl eq_refl ltac:(discriminate)).
  rewrite parseInt_js_String by exact Hn.
  replace (Z.abs n <=? MAX_SAFE_INTEGER) with true by (symmetry; apply Z.leb_le; exact Hn).
  rewrite String.eqb_refl. reflexivity.
Qed.

Lemma map_get_decode decode (h : Hash) k :
  map_get (getPollingState decode h) k = option_map decode (map_get h k).
Proof.
  induction h as [|[k' v] h IH]; cbn; [reflexivity|].
  destruct (String.eqb k k'); [reflexivity|exact IH].
Qed.

Lemma getHeartbeat_update decode t h :
  Z.abs t <= MAX_SAFE_INTEGER -> decode (js_String t) = JNum t ->
  getHeartbeatFromState (getPollingState decode (updatePollingState [("heartbeat", HNum t)] h)) =
    if t =? 0 then NNull else NNum t.
Proof.
  intros Ht Hd. unfold getHeartbeatFromState. rewrite map_get_decode.
  unfold updatePollingState. cbn [map fst snd hmset hval_string].
  rewrite map_get_set, String.eqb_refl. cbn [option_map]. rewrite Hd.
  cbn [js_truthy js_to_string]. destruct (Z.eqb_spec t 0); [reflexivity|].
  apply parseInt_js_String; exact Ht.
Qed.

Lemma colon_key_neq a c s :
  ~ In ":"%char (list_ascii_of_string s) -> a ++ ":" ++ c <> s.
Proof.
  revert s; induction a as [|x a IH]; intros s Hs E; destruct s as [|y s]; cbn in *;
    try discriminate.
  - injection E as <- _. apply Hs; left; reflexivity.
  - injection E as <- E. apply (IH s); [intros H; apply Hs; right; exact H|exact E].
Qed.

Lemma no_colon_heartbeat : ~ In ":"%char (list_ascii_of_string "heartbeat").
Proof. cbn. intros H; repeat destruct H as [H|H]; discriminate || exact H. Qed.

Lemma no_colon_poller : ~ In ":"%char (list_ascii_of_string "poller").
Proof. cbn. intros H; repeat destruct H as [H|H]; discriminate || exact H. Qed.

Lemma no_colon_mode : ~ In ":"%char (list_ascii_of_string "mode").
Proof. cbn. intros H; repeat destruct H as [H|H]; discriminate || exact H. Qed.

Lemma eqb_neq_false a b : a <> b -> String.eqb a b = false.
Proof. intros H. destruct (String.eqb_spec a b); [contradiction|reflexivity]. Qed.

(** Writing a cursor into the [polling:state] hash with
    [buildLastIdUpdate] and reading it back decodes the written id: the
    decoded value when it is truthy, ['0'] otherwise; every other cursor
    field, the heartbeat, the poller and the mode read as before. *)
Lemma lastId_state_update decode h a c id :
  let st := getPollingState decode h in
  let st' := getPollingState decode (updatePollingState (buildLastIdUpdate a c id) h) in
  getLastIdFromState st' a c = (if js_truthy (decode id) then decode id else JStr "0") /\
  (forall a' c', a' ++ ":" ++ c' <> a ++ ":" ++ c ->
     getLastIdFromState st' a' c' = getLastIdFromState st a' c') /\
  getHeartbeatFromState st' = getHeartbeatFromState st /\
  getPollerFromState st' = getPollerFromState st /\
  getModeFromState st' = getModeFromState st.
Proof.
  cbn zeta. unfold getLastIdFromState, getHeartbeatFromState, getPollerFromState, getModeFromState.
  rewrite !map_get_decode.
  unfold updatePollingState, buildLastIdUpdate. cbn [map fst snd hmset hval_string].
  rewrite !map_get_set, String.eqb_refl.
  rewrite (eqb_neq_false "heartbeat" (a ++ ":" ++ c))
    by (intros E; symmetry in E; exact (colon_key_neq a c _ no_colon_heartbeat E)).
  rewrite (eqb_neq_false "poller" (a ++ ":" ++ c))
    by (intros E; symmetry in E; exact (colon_key_neq a c _ no_colon_poller E)).
  rewrite (eqb_neq_false "mode" (a ++ ":" ++ c))
    by (intros E; symmetry in E; exact (colon_key_neq a c _ no_colon_mode E)).
  split; [reflexivity|]. split; [|auto].
  intros a' c' Hne. rewrite !map_get_decode, map_get_set, (eqb_neq_false _ _ Hne). reflexivity.
Qed.

Lemma pollAllTransfers_with_some rs e s : exists ts, fst (pollAllTransfers_with rs e s) = Some ts.
Proof.
  unfold pollAllTransfers_with.
  destruct (pollHBDBatched _ _ e s) as [[h|] s1]; [|eexists; reflexivity].
  destruct (pollHiveEngineTokenBatched EURO _ _ e s1) as [[eu|] s2]; [|eexists; reflexivity].
  destruct (pollHiveEngineTokenBatched OCLT _ _ e s2) as [[oc|] s3]; [|eexists; reflexivity].
  destruct (publish_all _ e s3). eexists; reflexivity.
Qed.

Lemma poll_GET_ok decode t e r :
  exists ts s', pollAllTransfers e (storeR r) = (Some ts, s') /\
    poll_GET decode t e r =
      (Some {| pr_found := length ts;
               pr_poller := getPollerFromState (getPollingState decode (hashR r));
               pr_timestamp := t |},
       {| coordR := match getPollerFromState (getPollingState decode (hashR r)) with
                    | Some p => refreshPollerLockV2 (js_to_string p) t (coordR r)
                    | None => coordR r end;
          hashR := updatePollingState [("heartbeat", HNum t)] (hashR r);
          bcastR := bcastR r; storeR := s' |}).
Proof.
  destruct (pollAllTransfers_with_some RESTAURANTS e (storeR r)) as [ts E].
  unfold poll_GET, pollAllTransfers. destruct (pollAllTransfers_with RESTAURANTS e (storeR r)) as [o s'].
  cbn in E; subst o. exists ts, s'. split; reflexivity.
Qed.

Lemma hash_other_update (updates : list (string * HVal)) h k :
  ~ In k (map fst updates) -> map_get (updatePollingState updates h) k = map_get h k.
Proof.
  unfold updatePollingState. destruct updates as [|u us]; [reflexivity|].
  generalize (u :: us) as l. clear u us. intros l. revert h.
  induction l as [|[k' v] l IH]; intros h Hk; cbn [map hmset fst snd]; [reflexivity|].
  rewrite IH by (intros H; apply Hk; right; exact H).
  rewrite map_get_set. destruct (String.eqb_spec k k') as [->|]; [|reflexivity].
  exfalso; apply Hk; left; reflexivity.
Qed.

Lemma step_hash_other decode c r k :
  k <> "heartbeat" -> k <> "mode" -> map_get (hashR (step decode c r)) k = map_get (hashR r) k.
Proof.
  intros H1 H2. destruct c as [shopId t delay|t e|t e]; cbn [step].
  - unfold wakeup_POST. destruct (String.eqb shopId ""); [reflexivity|].
    destruct (heartbeat_fresh (heartbeat (coordR r)) t), (getPoller (coordR r) t); try reflexivity;
      destruct (attemptTakeoverAsPoller shopId (t + delay) (coordR r)) as [[] c1]; reflexivity.
  - destruct (poll_GET_ok decode t e r) as (ts & s' & _ & ->). cbn [snd hashR].
    apply hash_other_update. cbn. intros [E|[]]; auto.
  - unfold cron_GET.
    destruct (fresh_num (getHeartbeatFromState (getPollingState decode (hashR r))) t); [reflexivity|].
    destruct (pollAllTransfers e (storeR r)) as [[ts|] s']; cbn [snd hashR];
      apply hash_other_update; cbn; intros [E|[E|[]]]; auto.
Qed.

Lemma run_calls_cons decode c cs r : run_calls decode (c :: cs) r = run_calls decode cs (step decode c r).
Proof. reflexivity. Qed.

Lemma attempt_heartbeat shopId t st :
  heartbeat (snd (attemptTakeoverAsPoller shopId t st)) = heartbeat st.
Proof. unfold attemptTakeoverAsPoller. destruct (getPoller st t); reflexivity. Qed.

Lemma step_heartbeat decode c r : heartbeat (coordR (step decode c r)) = heartbeat (coordR r).
Proof.
  destruct c as [shopId t delay|t e|t e]; cbn [step].
  - unfold wakeup_POST. destruct (String.eqb shopId ""); [reflexivity|].
    pose proof (attempt_heartbeat shopId (t + delay) (coordR r)) as Ha.
    destruct (heartbeat_fresh (heartbeat (coordR r)) t), (getPoller (coordR r) t); try reflexivity;
      destruct (attemptTakeoverAsPoller shopId (t + delay) (coordR r)) as [[] c1];
      exact Ha.
  - destruct (poll_GET_ok decode t e r) as (ts & s' & _ & ->). cbn [snd coordR].
    destruct (getPollerFromState (getPollingState decode (hashR r))); [|reflexivity].
    unfold refreshPollerLockV2, refreshPollerLock.
    destruct (poller (coordR r)) as [[id exp]|]; [destruct (t <? exp)|]; reflexivity.
  - unfold cron_GET.
    destruct (fresh_num (getHeartbeatFromState (getPollingState decode (hashR r))) t); [reflexivity|].
    destruct (pollAllTransfers e (storeR r)) as [[ts|] s']; reflexivity.
Qed.

Lemma step_lease decode c r :
  getPollerFromState (getPollingState decode (hashR r)) = None ->
  poller (coordR (step decode c r)) = poller (coordR r) \/
  exists shopId t delay, c = CWake shopId t delay /\
    poller (coordR (step decode c r)) = Some (shopId, t + delay + POLLER_LOCK_TTL_MS).
Proof.
  intros Hp. destruct c as [shopId t delay|t e|t e]; cbn [step].
  - unfold wakeup_POST. destruct (String.eqb shopId ""); [left; reflexivity|].
    destruct (heartbeat_fresh _ t), (getPoller (coordR r) t); try (left; reflexivity);
      unfold attemptTakeoverAsPoller; destruct (getPoller (coordR r) (t + delay));
      try (left; reflexivity); right; exists shopId, t, delay; split; reflexivity.
  - left. destruct (poll_GET_ok decode t e r) as (ts & s' & _ & ->). cbn [snd coordR].
    rewrite Hp. reflexivity.
  - left. unfold cron_GET.
    destruct (fresh_num (getHeartbeatFromState (getPollingState decode (hashR r))) t); [reflexivity|].
    destruct (pollAllTransfers e (storeR r)) as [[ts|] s']; reflexivity.
Qed.

Lemma step_poller_field decode c r :
  getPollerFromState (getPollingState decode (hashR (step decode c r))) =
  getPollerFromState (getPollingState decode (hashR r)).
Proof.
  unfold getPollerFromState. rewrite !map_get_decode, step_hash_other by discriminate.
  reflexivity.
Qed.

(** After [/api/poll] runs at [t1], [/api/cron-poll] at any [t] less than
    [HEARTBEAT_TIMEOUT] later skips its cycle reporting heartbeat [t1] and
    changes nothing, and [/api/status] reports polling as active; the
    state hash is read back with the SDK's decoding [upstash_decode]. *)
Theorem poll_then_cron_skips t1 t e1 e2 r :
  0 < t1 <= MAX_SAFE_INTEGER -> t1 <= t < t1 + HEARTBEAT_TIMEOUT ->
  fst (poll_GET upstash_decode t1 e1 r) <> None /\
  cron_GET upstash_decode t e2 (snd (poll_GET upstash_decode t1 e1 r)) =
    (CronSkipped (NNum t1), snd (poll_GET upstash_decode t1 e1 r)) /\
  sp_isActive (status_polling upstash_decode (hashR (snd (poll_GET upstash_decode t1 e1 r))) t) = true.
Proof.
  intros Ht1 Ht.
  assert (Hd : upstash_decode (js_String t1) = JNum t1) by (apply upstash_decode_js_String; lia).
  destruct (poll_GET_ok upstash_decode t1 e1 r) as (ts & s' & _ & ->). cbn [fst snd hashR].
  split; [discriminate|].
  assert (Hb : getHeartbeatFromState
                 (getPollingState upstash_decode (updatePollingState [("heartbeat", HNum t1)] (hashR r))) = NNum t1).
  { rewrite getHeartbeat_update by (lia || exact Hd).
    replace (t1 =? 0) with false by (symmetry; apply Z.eqb_neq; lia). reflexivity. }
  unfold cron_GET, status_polling. cbn [hashR]. rewrite Hb. unfold fresh_num.
  replace (t1 =? 0) with false by (symmetry; apply Z.eqb_neq; lia).
  replace (t - t1 <? HEARTBEAT_TIMEOUT) with true by (symmetry; apply Z.ltb_lt; lia).
  split; reflexivity.
Qed.


(** Starting from a state hash whose [poller] field reads as falsy, no
    sequence of wake-up, poll and cron-poll calls ever sets that field;
    so [refreshPollerLockV2] never runs, and the lease key only changes by
    a wake-up takeover, to the caller for [POLLER_LOCK_TTL_MS]. *)
Theorem shipped_routes_never_refresh_lease decode cs r :
  getPollerFromState (getPollingState decode (hashR r)) = None ->
  getPollerFromState (getPollingState decode (hashR (run_calls decode cs r))) = None /\
  (poller (coordR (run_calls decode cs r)) = poller (coordR r) \/
   exists shopId t delay, In (CWake shopId t delay) cs /\
     poller (coordR (run_calls decode cs r)) = Some (shopId, t + delay + POLLER_LOCK_TTL_MS)).
Proof.
  revert r; induction cs as [|c cs IH]; intros r Hp; [split; [exact Hp|left; reflexivity]|].
  rewrite run_calls_cons.
  assert (Hp' : getPollerFromState (getPollingState decode (hashR (step decode c r))) = None)
    by (rewrite step_poller_field; exact Hp).
  destruct (IH (step decode c r) Hp') as [IH1 IH2]. split; [exact IH1|].
  destruct IH2 as [E|(shopId & t & delay & Hin & E)].
  - rewrite E. destruct (step_lease decode c r Hp) as [E'|(shopId & t & delay & -> & E')].
    + left; exact E'.
    + right. exists shopId, t, delay. split; [left; reflexivity|exact E'].
  - right. exists shopId, t, delay. split; [right; exact Hin|exact E].
Qed.

Lemma run_calls_heartbeat decode cs r :
  heartbeat (coordR (run_calls decode cs r)) = heartbeat (coordR r).
Proof.
  revert r; induction cs as [|c cs IH]; intros r; [reflexivity|].
  rewrite run_calls_cons, IH. apply step_heartbeat.
Qed.

(** Starting with no [polling:heartbeat] key, no sequence of wake-up, poll
    and cron-poll calls ever writes it: wake-up never answers
    [already-active] and [/api/heartbeat] always reports inactive. *)
Theorem shipped_routes_never_mark_active decode cs r :
  heartbeat (coordR r) = None ->
  forall shopId t delay t',
    (forall p hb, fst (wakeup_POST shopId t delay (run_calls decode cs r)) <> WAlreadyActive p hb) /\
    isActive (heartbeat_GET (coordR (run_calls decode cs r)) t') = false.
Proof.
  intros Hn shopId t delay t'. pose proof (run_calls_heartbeat decode cs r) as Eh. rewrite Hn in Eh.
  split.
  - intros p hb. unfold wakeup_POST. rewrite Eh. cbn [heartbeat_fresh].
    destruct (String.eqb shopId ""); [discriminate|].
    destruct (getPoller (coordR (run_calls decode cs r)) t);
      destruct (attemptTakeoverAsPoller shopId (t + delay) (coordR (run_calls decode cs r))) as [[] c1];
      discriminate.
  - unfold heartbeat_GET. rewrite Eh. reflexivity.
Qed.

(** The cursors that [/api/status] reads from the [polling:state] hash
    are never changed by any sequence of wake-up, poll and cron-poll
    calls. *)
Theorem status_lastIds_never_change decode cs r a cur :
  getLastIdFromState (getPollingState decode (hashR (run_calls decode cs r))) a cur =
  getLastIdFromState (getPollingState decode (hashR r)) a cur.
Proof.
  revert r; induction cs as [|c cs IH]; intros r; [reflexivity|].
  rewrite run_calls_cons, IH. unfold getLastIdFromState. rewrite !map_get_decode.
  rewrite step_hash_other; [reflexivity| |].
  - intros E. exact (colon_key_neq a cur _ no_colon_heartbeat E).
  - intros E. exact (colon_key_neq a cur _ no_colon_mode E).
Qed.

(** When a lease held by [p] is still live after the random delay,
    [/api/wake-up] changes nothing in Redis and answers a bad request,
    [already-active] for [p], or [lost-race] naming [p]. *)
Theorem wakeup_live_lease_changes_nothing shopId t delay r p :
  getPoller (coordR r) (t + delay) = Some p ->
  snd (wakeup_POST shopId t delay r) = r /\
  (fst (wakeup_POST shopId t delay r) = WBadRequest \/
   fst (wakeup_POST shopId t delay r) = WAlreadyActive p (heartbeat (coordR r)) \/
   fst (wakeup_POST shopId t delay r) = WLostRace (Some p) delay).
Proof.
  intros Hl. unfold wakeup_POST.
  destruct (String.eqb shopId ""); [auto|].
  assert (Hq : forall q, getPoller (coordR r) t = Some q -> q = p).
  { unfold getPoller in *. destruct (poller (coordR r)) as [[id exp]|]; [|discriminate].
    destruct (t + delay <? exp); [|discriminate]. destruct (t <? exp); [|discriminate].
    congruence. }
  assert (Hlost : attemptTakeoverAsPoller shopId (t + delay) (coordR r) = (false, coordR r))
    by (unfold attemptTakeoverAsPoller; rewrite Hl; reflexivity).
  destruct r as [c h b s]; cbn [coordR hashR bcastR storeR] in *.
  destruct (heartbeat_fresh (heartbeat c) t) eqn:Ef;
    destruct (getPoller c t) as [q|] eqn:Eg;
    try (rewrite (Hq q eq_refl); auto);
    rewrite Hlost; cbn; rewrite Hl; auto.
Qed.

Lemma strip_prefix_app p s r : strip_prefix p s = Some r -> s = (p ++ r)%string.
Proof.
  revert s; induction p as [|a p IH]; intros s; cbn.
  - intros H; inversion H; reflexivity.
  - destruct s as [|b s]; [discriminate|].
    destruct (Ascii.eqb_spec a b) as [<-|]; [|discriminate].
    intros H. rewrite (IH s H). reflexivity.
Qed.

(** An allowed origin starting with [https://] is one of the listed
    origins (custom or production): the development patterns only accept
    [http://] origins. *)
Theorem cors_https_origins_listed env o :
  isOriginAllowed env (Some o) = true -> strip_prefix "https://" o <> None ->
  In o (customOrigins env) \/ In o productionOrigins.
Proof.
  intros H Hp. destruct (strip_prefix "https://" o) as [r|] eqn:E; [|contradiction].
  apply strip_prefix_app in E. unfold isOriginAllowed in H.
  destruct (String.eqb o "") ; [discriminate|].
  apply orb_true_iff in H as [H|H].
  - apply orb_true_iff in H as [H|H]; apply existsb_exists in H as (x & Hx & Ex);
      apply String.eqb_eq in Ex; subst x; auto.
  - exfalso. subst o. revert H. cbn. discriminate.
Qed.

(** The CORS headers of the ack route never combine
    [Access-Control-Allow-Origin: *] with credentials (the wildcard only in
    development); credentials come only with the request's own origin; in
    production the route sends either no header or credentials. *)
Theorem ack_cors_credentials prod origin :
  let H := ack_getCorsHeaders prod origin in
  (map_get H "Access-Control-Allow-Origin" = Some "*" ->
     prod = false /\ map_get H "Access-Control-Allow-Credentials" = None) /\
  (map_get H "Access-Control-Allow-Credentials" = Some "true" ->
     map_get H "Access-Control-Allow-Origin" = Some (match origin with Some s => s | None => "" end)) /\
  (prod = true -> H = [] \/ map_get H "Access-Control-Allow-Credentials" = Some "true").
Proof.
  cbn zeta. unfold ack_getCorsHeaders.
  set (o := match origin with Some s => s | None => "" end).
  destruct (re_innopay o || re_localhost_ci o || re_192_ci o) eqn:M.
  - cbn. split; [|split; [reflexivity|auto]].
    intros E. inversion E as [Eo]. rewrite Eo in M. discriminate.
  - destruct prod; cbn; [split; [discriminate|split; [discriminate|auto]]|].
    split; [auto|split; [discriminate|discriminate]].
Qed.

Lemma app_empty_string s : (s ++ "")%string = s.
Proof. induction s as [|c s IH]; cbn; [reflexivity|rewrite IH; reflexivity]. Qed.

Lemma lower_str_app a b : lower_str (a ++ b) = (lower_str a ++ lower_str b)%string.
Proof. induction a as [|c a IH]; cbn; [reflexivity|rewrite IH; reflexivity]. Qed.

Lemma strip_prefix_ci_spec p s r :
  strip_prefix_ci p s = Some r -> exists q, s = (q ++ r)%string /\ lower_str q = lower_str p.
Proof.
  revert s; induction p as [|a p IH]; intros s; cbn.
  - intros H; inversion H; subst. exists ""; auto.
  - destruct s as [|b s]; [discriminate|].
    destruct (Ascii.eqb_spec (lower a) (lower b)) as [E|]; [|discriminate].
    intros H. destruct (IH s H) as (q & -> & Hq). exists (String b q).
    split; [reflexivity|cbn; rewrite Hq, E; reflexivity].
Qed.

Lemma skip_while_spec f s :
  exists q, s = (q ++ skip_while f s)%string /\
            forall c, In c (list_ascii_of_string q) -> f c = true.
Proof.
  induction s as [|c s IH]; cbn.
  - exists ""; split; [reflexivity|intros _ []].
  - destruct (f c) eqn:Ef.
    + destruct IH as (q & Hq & Hall). exists (String c q). split; [cbn; rewrite <- Hq; reflexivity|].
      intros x [<-|Hx]; auto.
    + exists ""; split; [reflexivity|intros _ []].
Qed.

Lemma plus_class_spec f s r :
  plus_class f s = Some r ->
  exists q, q <> "" /\ s = (q ++ r)%string /\ forall c, In c (list_ascii_of_string q) -> f c = true.
Proof.
  destruct s as [|c s]; cbn; [discriminate|].
  destruct (f c) eqn:Ef; [|discriminate]. intros H; inversion H; subst r.
  destruct (skip_while_spec f s) as (q & Hq & Hall). exists (String c q).
  split; [discriminate|]. split; [cbn; rewrite <- Hq; reflexivity|].
  intros x [<-|Hx]; auto.
Qed.

(** The innopay pattern of the ack route accepts only
    [https://<label>.innopay.lu] (case-insensitively) with one non-empty
    label of letters, digits and dashes. *)
Theorem ack_innopay_single_label o :
  re_innopay o = true ->
  exists label, label <> "" /\
    (forall c, In c (list_ascii_of_string label) -> is_label_char c = true) /\
    lower_str o = ("https://" ++ lower_str label ++ ".innopay.lu")%string.
Proof.
  unfold re_innopay.
  destruct (strip_prefix_ci "https://" o) as [r|] eqn:E1; [|discriminate].
  destruct (plus_class is_label_char r) as [r2|] eqn:E2; [|discriminate].
  destruct (strip_prefix_ci ".innopay.lu" r2) as [[|c r3]|] eqn:E3; try discriminate.
  intros _.
  destruct (strip_prefix_ci_spec _ _ _ E1) as (q1 & -> & Hq1).
  destruct (plus_class_spec _ _ _ E2) as (lab & Hne & -> & Hall).
  destruct (strip_prefix_ci_spec _ _ _ E3) as (q3 & -> & Hq3).
  exists lab. split; [exact Hne|]. split; [exact Hall|].
  rewrite app_empty_string, !lower_str_app, Hq1, Hq3. reflexivity.
Qed.

Lemma map_get_app_single {V} (l : list (string * V)) k0 v0 k :
  map_get (l ++ [(k0, v0)])%list k =
    match map_get l k with Some v => Some v | None => if String.eqb k k0 then Some v0 else None end.
Proof.
  induction l as [|[k' v'] l IH]; cbn; [reflexivity|].
  destruct (String.eqb k k'); [reflexivity|exact IH].
Qed.

Lemma js_set_get obj k0 v k :
  map_get (js_set obj k0 v) k =
    if String.eqb k "__proto__" then map_get obj k
    else if String.eqb k k0 then Some v else map_get obj k.
Proof.
  unfold js_set. destruct (String.eqb_spec k0 "__proto__") as [->|H0].
  - destruct (String.eqb k "__proto__"); reflexivity.
  - rewrite map_get_set. destruct (String.eqb_spec k "__proto__") as [->|]; [|reflexivity].
    rewrite (proj2 (String.eqb_neq "__proto__" k0) (fun E => H0 (eq_sym E))). reflexivity.
Qed.

Lemma assign_fields_flatten obj kvs k :
  map_get (assign_fields obj (flatten_fields kvs)) k =
    if String.eqb k "__proto__" then map_get obj k
    else match map_get (rev kvs) k with Some v => Some (Some v) | None => map_get obj k end.
Proof.
  revert obj; induction kvs as [|[k0 v0] kvs IH]; intros obj.
  - cbn. destruct (String.eqb k "__proto__"); reflexivity.
  - change (flatten_fields ((k0, v0) :: kvs)) with (k0 :: v0 :: flatten_fields kvs).
    cbn [assign_fields]. rewrite IH, !js_set_get. cbn [rev]. rewrite map_get_app_single.
    destruct (String.eqb k "__proto__"); [reflexivity|].
    destruct (map_get (rev kvs) k); [reflexivity|]. destruct (String.eqb k k0); reflexivity.
Qed.

(** The object built for a stream entry by the consume route has as own
    properties (the keys of the JSON it is sent as) each field name with
    its value, the last one when a name repeats, except a field named
    [__proto__], whose assignment makes no property; without such a field,
    [messageId] and [streamId] hold the entry id and every other key is
    absent. *)
Theorem consume_entry_fields id kvs k :
  map_get (entry_to_obj id (flatten_fields kvs)) k =
    if String.eqb k "__proto__" then None
    else match map_get (rev kvs) k with
    | Some v => Some (Some v)
    | None => if String.eqb k "messageId" || String.eqb k "streamId" then Some (Some id) else None
    end.
Proof.
  unfold entry_to_obj. rewrite assign_fields_flatten.
  destruct (String.eqb k "__proto__") eqn:Ep.
  - apply String.eqb_eq in Ep; subst k. reflexivity.
  - destruct (map_get (rev kvs) k); [reflexivity|]. cbn.
    destruct (String.eqb k "messageId"), (String.eqb k "streamId"); reflexivity.
Qed.

(* ------------------------------------------------------------------ *)
(** ** The detectors, the heartbeat round trip, and sample runs *)

Ltac ctx_dom :=
  let a := fresh "a" in let H := fresh "H" in
  intros a H; cbn in H |- *;
  repeat match goal with
         | H : context [String.eqb ?x ?y] |- _ => destruct (String.eqb_spec x y)
         end; subst; cbn; tauto.

Ltac store_nonneg :=
  let k := fresh "k" in
  intros k; unfold cursor, store_with; cbn [kv]; destruct (String.eqb _ _); lia.

(** The HBD detector keeps only accepted rows above the cursor and
    raises the cursor to cover them. *)
Theorem hbd_detector_sound accts ctx e s ts s' :
  (forall a, map_get ctx a <> None -> In a accts) ->
  (forall k, 0 <= cursor s k) ->
  pollHBDBatched accts ctx e s = (Some ts, s') ->
  forall x, In x ts ->
    (exists mn row, In row (hbd_query (ledger e) accts mn) /\ hbd_accepts ctx (now e) row x) /\
    t_symbol x = HBD /\
    cursor s (lastId_key (t_account x) HBD) < t_id x <= cursor s' (lastId_key (t_account x) HBD).
Proof. intros Hctx Hpos H. exact (pollHBDBatched_ok accts ctx e s ts s' Hctx Hpos H). Qed.

Lemma hbd_detector_sound_witness :
  let r := pollHBDBatched all_accounts all_ctx scenario_env (store_with 100) in
  exists ts s', r = (Some ts, s') /\ In (indies_hbd 105) ts /\
  forall x, In x ts ->
    (exists mn row, In row (hbd_query (ledger scenario_env) all_accounts mn) /\
                    hbd_accepts all_ctx (now scenario_env) row x) /\
    t_symbol x = HBD /\
    cursor (store_with 100) (lastId_key (t_account x) HBD) < t_id x <=
      cursor s' (lastId_key (t_account x) HBD).
Proof.
  intros r.
  exists (match fst r with Some l => l | None => [] end), (snd r).
  assert (E : r = (Some (match fst r with Some l => l | None => [] end), snd r))
    by (vm_compute; reflexivity).
  split; [exact E|]. split; [vm_compute; left; reflexivity|].
  apply (hbd_detector_sound all_accounts all_ctx scenario_env (store_with 100)); [ctx_dom|store_nonneg|exact E].
Defined.

(** The Hive-Engine detector keeps only accepted rows above the cursor
    and raises the cursor to cover them. *)
Theorem he_detector_sound sym accts ctx e s ts s' :
  (forall a, map_get ctx a <> None -> In a accts) ->
  (forall k, 0 <= cursor s k) ->
  pollHiveEngineTokenBatched sym accts ctx e s = (Some ts, s') ->
  forall x, In x ts ->
    (exists lo hi mn row, In row (cj_query (ledger e) lo hi mn) /\ he_accepts sym ctx row x) /\
    t_symbol x = sym /\
    cursor s (lastId_key (t_account x) sym) < t_id x <= cursor s' (lastId_key (t_account x) sym).
Proof. intros Hctx Hpos H. exact (pollHiveEngineTokenBatched_ok sym accts ctx e s ts s' Hctx Hpos H). Qed.

Lemma he_detector_sound_witness :
  let r := pollHiveEngineTokenBatched EURO all_accounts all_ctx euro_env (store_with 100) in
  exists ts s', r = (Some ts, s') /\ map t_id ts = [7] /\
  forall x, In x ts ->
    (exists lo hi mn row, In row (cj_query (ledger euro_env) lo hi mn) /\
                          he_accepts EURO all_ctx row x) /\
    t_symbol x = EURO /\
    cursor (store_with 100) (lastId_key (t_account x) EURO) < t_id x <=
      cursor s' (lastId_key (t_account x) EURO).
Proof.
  intros r.
  exists (match fst r with Some l => l | None => [] end), (snd r).
  assert (E : r = (Some (match fst r with Some l => l | None => [] end), snd r))
    by (vm_compute; reflexivity).
  split; [exact E|]. split; [vm_compute; reflexivity|].
  apply (he_detector_sound EURO all_accounts all_ctx euro_env (store_with 100)); [ctx_dom|store_nonneg|exact E].
Defined.

Lemma cycles_never_redetect_witness :
  let r1 := pollAllTransfers_with RESTAURANTS scenario_env (store_with 100) in
  let r2 := pollAllTransfers_with RESTAURANTS scenario_env_107 (snd r1) in
  exists ts1 ts2, fst r1 = Some ts1 /\ fst r2 = Some ts2 /\
    In (indies_hbd 105) ts1 /\ In (indies_hbd 107) ts2 /\
    t_id (indies_hbd 105) < t_id (indies_hbd 107).
Proof.
  intros r1 r2.
  exists (match fst r1 with Some l => l | None => [] end), (match fst r2 with Some l => l | None => [] end).
  assert (E1 : fst r1 = Some (match fst r1 with Some l => l | None => [] end)) by (vm_compute; reflexivity).
  assert (E2 : fst r2 = Some (match fst r2 with Some l => l | None => [] end)) by (vm_compute; reflexivity).
  assert (I1 : In (indies_hbd 105) (match fst r1 with Some l => l | None => [] end)) by (vm_compute; left; reflexivity).
  assert (I2 : In (indies_hbd 107) (match fst r2 with Some l => l | None => [] end)) by (vm_compute; left; reflexivity).
  do 4 (split; [assumption|]).
  exact (cycles_never_redetect RESTAURANTS scenario_env scenario_env_107 (store_with 100)
           ltac:(store_nonneg) _ _ (indies_hbd 105) (indies_hbd 107) E1 E2 I1 I2 eq_refl eq_refl).
Defined.

Lemma null_json_row_blocks_publish_witness :
  RESTAURANTS <> [] /\
  (forall lo hi mn, exists row, In row (cj_query (ledger null_json_env) lo hi mn) /\ cj_json row = JNull) /\
  published (snd (pollAllTransfers_with RESTAURANTS null_json_env (store_with 100))) = published (store_with 100) /\
  fst (pollAllTransfers_with RESTAURANTS null_json_env (store_with 100)) =
    Some (match fst (pollHBDBatched (accountList (getAllAccounts RESTAURANTS))
                       (build_ctx (getAllAccounts RESTAURANTS) []) null_json_env (store_with 100)) with
          | Some h => h | None => [] end).
Proof.
  assert (H1 : RESTAURANTS <> []) by discriminate.
  assert (H2 : forall lo hi mn, exists row, In row (cj_query (ledger null_json_env) lo hi mn) /\ cj_json row = JNull)
    by (intros lo hi mn; eexists; split; [left; reflexivity|reflexivity]).
  split; [exact H1|]. split; [exact H2|].
  exact (null_json_row_blocks_publish RESTAURANTS null_json_env (store_with 100) H1 H2).
Defined.

(** Writing a safe-integer heartbeat [t] into the state hash and reading
    it back through the SDK's decoding gives [t], except for [t = 0],
    which decodes to the falsy number [0] and reads as [null]. *)
Theorem heartbeat_state_round_trip t h :
  Z.abs t <= MAX_SAFE_INTEGER ->
  getHeartbeatFromState (getPollingState upstash_decode (updatePollingState [("heartbeat", HNum t)] h)) =
    if t =? 0 then NNull else NNum t.
Proof.
  intros H. apply getHeartbeat_update; [exact H|]. apply upstash_decode_js_String; exact H.
Qed.

Lemma heartbeat_state_round_trip_witness :
  Z.abs 6000 <= MAX_SAFE_INTEGER /\
  getHeartbeatFromState (getPollingState upstash_decode (updatePollingState [("heartbeat", HNum 6000)] [])) =
    if 6000 =? 0 then NNull else NNum 6000.
Proof.
  assert (H : Z.abs 6000 <= MAX_SAFE_INTEGER) by (vm_compute; discriminate).
  split; [exact H|]. exact (heartbeat_state_round_trip 6000 [] H).
Defined.

Lemma poll_then_cron_skips_witness :
  (0 < 6000 <= MAX_SAFE_INTEGER) /\ (6000 <= 10000 < 6000 + HEARTBEAT_TIMEOUT) /\
  fst (poll_GET upstash_decode 6000 quiet_env empty_redis) <> None /\
  cron_GET upstash_decode 10000 quiet_env (snd (poll_GET upstash_decode 6000 quiet_env empty_redis)) =
    (CronSkipped (NNum 6000), snd (poll_GET upstash_decode 6000 quiet_env empty_redis)) /\
  sp_isActive (status_polling upstash_decode (hashR (snd (poll_GET upstash_decode 6000 quiet_env empty_redis))) 10000) = true.
Proof.
  assert (H1 : 0 < 6000 <= MAX_SAFE_INTEGER) by (unfold MAX_SAFE_INTEGER; lia).
  assert (H2 : 6000 <= 10000 < 6000 + HEARTBEAT_TIMEOUT) by (unfold HEARTBEAT_TIMEOUT; lia).
  split; [exact H1|]. split; [exact H2|].
  exact (poll_then_cron_skips 6000 10000 quiet_env quiet_env empty_redis H1 H2).
Defined.

Lemma shipped_routes_never_refresh_lease_witness :
  let cs := [CWake "indies" 0 500; CPoll 6000 quiet_env; CCron 20000 quiet_env] in
  getPollerFromState (getPollingState upstash_decode (hashR empty_redis)) = None /\
  getPollerFromState (getPollingState upstash_decode (hashR (run_calls upstash_decode cs empty_redis))) = None /\
  (poller (coordR (run_calls upstash_decode cs empty_redis)) = poller (coordR empty_redis) \/
   exists shopId t delay, In (CWake shopId t delay) cs /\
     poller (coordR (run_calls upstash_decode cs empty_redis)) = Some (shopId, t + delay + POLLER_LOCK_TTL_MS)).
Proof.
  intros cs.
  assert (H : getPollerFromState (getPollingState upstash_decode (hashR empty_redis)) = None) by reflexivity.
  split; [exact H|]. exact (shipped_routes_never_refresh_lease upstash_decode cs empty_redis H).
Defined.

Lemma shipped_routes_never_mark_active_witness :
  let cs := [CWake "indies" 0 500; CPoll 6000 quiet_env; CCron 20000 quiet_env] in
  heartbeat (coordR empty_redis) = None /\
  (forall p hb, fst (wakeup_POST "croque-bedaine" 21000 0 (run_calls upstash_decode cs empty_redis)) <> WAlreadyActive p hb) /\
  isActive (heartbeat_GET (coordR (run_calls upstash_decode cs empty_redis)) 21000) = false.
Proof.
  intros cs.
  assert (H : heartbeat (coordR empty_redis) = None) by reflexivity.
  split; [exact H|].
  exact (shipped_routes_never_mark_active upstash_decode cs empty_redis H "croque-bedaine" 21000 0 21000).
Defined.

Lemma wakeup_live_lease_changes_nothing_witness :
  getPoller (coordR indies_redis) (1000 + 500) = Some "indies" /\
  snd (wakeup_POST "croque-bedaine" 1000 500 indies_redis) = indies_redis /\
  (fst (wakeup_POST "croque-bedaine" 1000 500 indies_redis) = WBadRequest \/
   fst (wakeup_POST "croque-bedaine" 1000 500 indies_redis) =
     WAlreadyActive "indies" (heartbeat (coordR indies_redis)) \/
   fst (wakeup_POST "croque-bedaine" 1000 500 indies_redis) = WLostRace (Some "indies") 500).
Proof.
  assert (H : getPoller (coordR indies_redis) (1000 + 500) = Some "indies") by reflexivity.
  split; [exact H|].
  exact (wakeup_live_lease_changes_nothing "croque-bedaine" 1000 500 indies_redis "indies" H).
Defined.

Lemma cors_https_origins_listed_witness :
  isOriginAllowed None (Some "https://indies.innopay.lu") = true /\
  strip_prefix "https://" "https://indies.innopay.lu" <> None /\
  (In "https://indies.innopay.lu" (customOrigins None) \/
   In "https://indies.innopay.lu" productionOrigins).
Proof.
  assert (H1 : isOriginAllowed None (Some "https://indies.innopay.lu") = true) by (vm_compute; reflexivity).
  assert (H2 : strip_prefix "https://" "https://indies.innopay.lu" <> None) by (vm_compute; discriminate).
  split; [exact H1|]. split; [exact H2|].
  exact (cors_https_origins_listed None "https://indies.innopay.lu" H1 H2).
Defined.

Lemma ack_innopay_single_label_witness :
  re_innopay "https://indies.innopay.lu" = true /\
  exists label, label <> "" /\
    (forall c, In c (list_ascii_of_string label) -> is_label_char c = true) /\
    lower_str "https://indies.innopay.lu" = ("https://" ++ lower_str label ++ ".innopay.lu")%string.
Proof.
  assert (H : re_innopay "https://indies.innopay.lu" = true) by (vm_compute; reflexivity).
  split; [exact H|]. exact (ack_innopay_single_label "https://indies.innopay.lu" H).
Defined.

(* ------------------------------------------------------------------ *)
(** * Failed cycles, the HBD scenario, and reclaims *)

Lemma read_lastIds_fails c accts ids mn e s a :
  In a accts -> fails e (OGet (lastId_key a c)) = true ->
  read_lastIds c accts ids mn e s = (None, s).
Proof.
  revert ids mn; induction accts as [|a0 rest IH]; intros ids mn Hin Hf; [destruct Hin|].
  cbn [read_lastIds]. unfold getLastId, bind, call, getS, ret.
  destruct Hin as [<-|Hin]; [rewrite Hf; reflexivity|].
  destruct (fails e (OGet (lastId_key a0 c))); [reflexivity|].
  apply IH; assumption.
Qed.

Lemma read_lastIds_ok_store c accts ids mn e s :
  (forall a, In a accts -> fails e (OGet (lastId_key a c)) = false) ->
  exists r, read_lastIds c accts ids mn e s = (Some r, s).
Proof.
  revert ids mn; induction accts as [|a0 rest IH]; intros ids mn Hf; [eexists; reflexivity|].
  cbn [read_lastIds]. unfold getLastId, bind, call, getS, ret.
  rewrite (Hf a0 (or_introl eq_refl)). apply IH. intros a Ha; apply Hf; right; exact Ha.
Qed.

Lemma hbd_prefail accts ctx e s :
  pre_write_fails e HBD accts -> accts = [] \/ pollHBDBatched accts ctx e s = (None, s).
Proof.
  intros Hp. destruct accts as [|a0 l0]; [left; reflexivity|right].
  unfold pollHBDBatched, bind.
  destruct Hp as [(a & Hin & Hf)|Hf].
  - rewrite (read_lastIds_fails HBD _ [] MAX_SAFE_INTEGER e s a Hin Hf). reflexivity.
  - destruct (read_lastIds_spec HBD (a0 :: l0) [] MAX_SAFE_INTEGER e s) as [Hs _].
    destruct (read_lastIds HBD (a0 :: l0) [] MAX_SAFE_INTEGER e s) as [[[ids mn]|] s1];
      cbn [snd] in Hs; subst s1; [|reflexivity].
    unfold hbd_select, bind, call. rewrite Hf. reflexivity.
Qed.

Lemma he_prefail sym accts ctx e s :
  sym <> HBD -> pre_write_fails e sym accts ->
  accts = [] \/ pollHiveEngineTokenBatched sym accts ctx e s = (None, s).
Proof.
  intros Hsym Hp. destruct accts as [|a0 l0]; [left; reflexivity|right].
  unfold pollHiveEngineTokenBatched, bind.
  destruct Hp as [(a & Hin & Hf)|Hf].
  - rewrite (read_lastIds_fails sym _ [] MAX_SAFE_INTEGER e s a Hin Hf). reflexivity.
  - assert (Hf' : fails e (OConnect sym) = true \/ fails e (OSession sym 0) = true \/
                  fails e (OSession sym 1) = true \/ fails e (OBlockQuery sym) = true \/
                  fails e (OCjQuery sym) = true)
      by (destruct sym; [contradiction|exact Hf|exact Hf|exact Hf]).
    clear Hf.
    destruct (read_lastIds_spec sym (a0 :: l0) [] MAX_SAFE_INTEGER e s) as [Hs _].
    destruct (read_lastIds sym (a0 :: l0) [] MAX_SAFE_INTEGER e s) as [[[ids mn]|] s1];
      cbn [snd] in Hs; subst s1; [|reflexivity].
    unfold head_select, cj_select, bind, call, askE, ret, throw.
    destruct (fails e (OConnect sym)); [reflexivity|].
    destruct (fails e (OSession sym 0)); [reflexivity|].
    destruct (fails e (OSession sym 1)); [reflexivity|].
    destruct (fails e (OBlockQuery sym)); [reflexivity|].
    destruct (fails e (OCjQuery sym)); [reflexivity|].
    exfalso. repeat destruct Hf' as [Hf'|Hf']; discriminate.
Qed.

Lemma write_maxIds_published c l e s :
  published (snd (write_maxIds c l e s)) = published s.
Proof. apply (write_maxIds_spec c l e s). Qed.

Lemma write_maxIds_other_currency c l e s a c' :
  c' <> c -> (forall a b, lastId_key a c <> lastId_key b c') ->
  cursor (snd (write_maxIds c l e s)) (lastId_key a c') = cursor s (lastId_key a c').
Proof.
  intros _ H. apply write_maxIds_frame. intros b m _ E. exact (H b a (eq_sym E)).
Qed.

Lemma lastId_key_last a c :
  exists p, list_ascii_of_string (lastId_key a c) =
            (p ++ [match c with HBD => "D" | EURO => "O" | HIVE => "E" | OCLT => "T" end%char])%list.
Proof.
  unfold lastId_key. rewrite !list_ascii_of_string_app.
  destruct c; cbn [currency_str list_ascii_of_string];
    [exists (app (list_ascii_of_string "lastId:") (app (list_ascii_of_string a) [":"%char; "H"%char; "B"%char]))
    |exists (app (list_ascii_of_string "lastId:") (app (list_ascii_of_string a) [":"%char; "E"%char; "U"%char; "R"%char]))
    |exists (app (list_ascii_of_string "lastId:") (app (list_ascii_of_string a) [":"%char; "H"%char; "I"%char; "V"%char]))
    |exists (app (list_ascii_of_string "lastId:") (app (list_ascii_of_string a) [":"%char; "O"%char; "C"%char; "L"%char]))];
    rewrite <- !app_assoc; reflexivity.
Qed.

Lemma lastId_key_currency_neq a b c c' :
  c <> c' -> lastId_key a c <> lastId_key b c'.
Proof.
  intros Hc E. destruct (lastId_key_last a c) as [p Ep]. destruct (lastId_key_last b c') as [q Eq].
  rewrite E, Eq in Ep. apply (f_equal (fun l => last l " "%char)) in Ep.
  rewrite !last_last in Ep. destruct c, c'; try contradiction Hc; try reflexivity; discriminate.
Qed.

Lemma pollHBDBatched_frame accts ctx e s :
  published (snd (pollHBDBatched accts ctx e s)) = published s /\
  forall a c, c <> HBD -> cursor (snd (pollHBDBatched accts ctx e s)) (lastId_key a c) =
                          cursor s (lastId_key a c).
Proof.
  unfold pollHBDBatched. destruct accts as [|a0 l0]; [split; reflexivity|].
  unfold bind.
  destruct (read_lastIds_spec HBD (a0 :: l0) [] MAX_SAFE_INTEGER e s) as [Hs _].
  destruct (read_lastIds HBD (a0 :: l0) [] MAX_SAFE_INTEGER e s) as [[[ids mn]|] s1];
    cbn [snd] in Hs; subst s1; [|split; reflexivity].
  unfold hbd_select, bind, call, askE, ret.
  destruct (fails e OHbdQuery); [split; reflexivity|].
  destruct (hbd_scan ctx ids (now e) (hbd_query (ledger e) (a0 :: l0) mn) [] []) as [ts mx].
  pose proof (write_maxIds_published HBD mx e s) as Hp.
  pose proof (fun a c H => write_maxIds_other_currency HBD mx e s a c H
                (fun x y => lastId_key_currency_neq x y HBD c (not_eq_sym H))) as Hc.
  destruct (write_maxIds HBD mx e s) as [[[]|] s2]; cbn [snd] in *; split; assumption.
Qed.

Lemma pollHiveEngineTokenBatched_frame sym accts ctx e s :
  published (snd (pollHiveEngineTokenBatched sym accts ctx e s)) = published s /\
  forall a c, c <> sym -> cursor (snd (pollHiveEngineTokenBatched sym accts ctx e s)) (lastId_key a c) =
                          cursor s (lastId_key a c).
Proof.
  unfold pollHiveEngineTokenBatched. destruct accts as [|a0 l0]; [split; reflexivity|].
  unfold bind.
  destruct (read_lastIds_spec sym (a0 :: l0) [] MAX_SAFE_INTEGER e s) as [Hs _].
  destruct (read_lastIds sym (a0 :: l0) [] MAX_SAFE_INTEGER e s) as [[[ids mn]|] s1];
    cbn [snd] in Hs; subst s1; [|split; reflexivity].
  unfold head_select, cj_select, bind, call, askE, ret, throw.
  destruct (fails e (OConnect sym)); [split; reflexivity|].
  destruct (fails e (OSession sym 0)); [split; reflexivity|].
  destruct (fails e (OSession sym 1)); [split; reflexivity|].
  destruct (fails e (OBlockQuery sym)); [split; reflexivity|].
  destruct (fails e (OCjQuery sym)); [split; reflexivity|].
  destruct (cj_query (ledger e) (current_block (head_query (ledger e)) - 10000)
              (current_block (head_query (ledger e))) mn) as [|r0 rs0]; [split; reflexivity|].
  destruct (he_scan sym ctx ids (r0 :: rs0) [] []) as [[ts mx]|]; [|split; reflexivity].
  pose proof (write_maxIds_published sym mx e s) as Hp.
  pose proof (fun a c H => write_maxIds_other_currency sym mx e s a c H
                (fun x y => lastId_key_currency_neq x y sym c (not_eq_sym H))) as Hc.
  destruct (write_maxIds sym mx e s) as [[[]|] s2]; cbn [snd] in *; split; assumption.
Qed.

Lemma cycle_no_accounts rs e s :
  accountList (getAllAccounts rs) = [] -> pollAllTransfers_with rs e s = (Some [], s).
Proof.
  unfold pollAllTransfers_with. set (accts := accountList (getAllAccounts rs)).
  intros H. rewrite H. reflexivity.
Qed.

(** C2 (amended): a cycle has no rollback, but it never lowers a cursor,
    whether it fails or not. A failure before the HBD detector's writes
    ends the cycle with no transfer and the store unchanged. A failure
    before the EURO (resp. OCLT) detector's writes publishes nothing and
    leaves the cursors of that currency and of OCLT as they were. *)
Theorem failed_cycle_never_lowers rs e s :
  let accts := accountList (getAllAccounts rs) in
  let s' := snd (pollAllTransfers_with rs e s) in
  cursors_mono s s' /\
  (pre_write_fails e HBD accts -> pollAllTransfers_with rs e s = (Some [], s)) /\
  (forall c, c = EURO \/ c = OCLT -> pre_write_fails e c accts ->
     published s' = published s /\
     forall a, cursor s' (lastId_key a c) = cursor s (lastId_key a c) /\
               cursor s' (lastId_key a OCLT) = cursor s (lastId_key a OCLT)).
Proof.
  cbv zeta. split; [apply pollAllTransfers_with_mono|].
  destruct (list_eq_dec String.string_dec (accountList (getAllAccounts rs)) []) as [Hn|Hn].
  { rewrite (cycle_no_accounts rs e s Hn). cbn [snd].
    split; [intros _; reflexivity|]. intros c _ _. split; [reflexivity|]. intros a; split; reflexivity. }
  unfold pollAllTransfers_with.
  set (accts := accountList (getAllAccounts rs)) in *.
  set (ctx := build_ctx (getAllAccounts rs) []).
  split.
  { intros Hp. destruct (hbd_prefail accts ctx e s Hp) as [E|E]; [contradiction|].
    rewrite E. reflexivity. }
  intros c Hc Hp.
  destruct (pollHBDBatched_frame accts ctx e s) as [P1 C1].
  destruct (pollHBDBatched accts ctx e s) as [[h|] s1]; cbn [snd] in P1, C1.
  2:{ cbn [snd]. split; [exact P1|]. intros a.
      split; apply C1; destruct Hc as [->| ->]; discriminate. }
  destruct (pollHiveEngineTokenBatched_frame EURO accts ctx e s1) as [P2 C2].
  destruct Hc as [->| ->].
  - destruct (he_prefail EURO accts ctx e s1 ltac:(discriminate) Hp) as [E|E]; [contradiction|].
    rewrite E. cbn [snd]. split; [exact P1|]. intros a.
    split; apply C1; discriminate.
  - destruct (pollHiveEngineTokenBatched EURO accts ctx e s1) as [[eu|] s2]; cbn [snd] in P2, C2.
    + destruct (he_prefail OCLT accts ctx e s2 ltac:(discriminate) Hp) as [E|E]; [contradiction|].
      rewrite E. cbn [snd]. split; [congruence|]. intros a.
      rewrite C2, C1 by discriminate. split; reflexivity.
    + cbn [snd]. split; [congruence|]. intros a.
      rewrite C2, C1 by discriminate. split; reflexivity.
Qed.

Lemma he_no_rows sym accts ctx e s :
  (forall o, fails e o = false) -> (forall lo hi mn, cj_query (ledger e) lo hi mn = []) ->
  pollHiveEngineTokenBatched sym accts ctx e s = (Some [], s).
Proof.
  intros Hf Hq. unfold pollHiveEngineTokenBatched. destruct accts as [|a0 l0]; [reflexivity|].
  unfold bind.
  destruct (read_lastIds_ok_store sym (a0 :: l0) [] MAX_SAFE_INTEGER e s (fun a _ => Hf _))
    as [[ids mn] ->].
  unfold head_select, cj_select, bind, call, askE, ret. rewrite !Hf, Hq. reflexivity.
Qed.

Lemma publish_all_ok ts e s :
  (forall o, fails e o = false) ->
  fst (publish_all ts e s) = Some tt /\ kv (snd (publish_all ts e s)) = kv s /\
  published (snd (publish_all ts e s)) =
    (published s ++ map (fun t => (t_restaurant_id t, t)) ts)%list.
Proof.
  intros Hf. revert s; induction ts as [|t ts IH]; intros s; cbn [publish_all].
  - cbn. rewrite app_nil_r. auto.
  - unfold publishTransfer, bind, call, getS, putS, ret. rewrite Hf.
    destruct (IH {| kv := kv s; published := (published s ++ [(t_restaurant_id t, t)])%list |})
      as (H1 & H2 & H3).
    split; [exact H1|]. split; [exact H2|]. rewrite H3. cbn [published map].
    rewrite <- app_assoc. reflexivity.
Qed.

Lemma hbd_scenario_detector accts ctx e s X Y r k r106 r105 r104 r103 :
  In X accts -> map_get ctx X = Some (r, k) -> map_get ctx Y = None ->
  cursor s (lastId_key X HBD) = 100 ->
  h_id r106 = 106 -> h_to r106 = Y ->
  h_id r105 = 105 -> h_to r105 = X -> includes (h_memo r105) (memo_pattern r HBD) = true ->
  h_id r104 = 104 -> h_to r104 = X -> includes (h_memo r104) (memo_pattern r HBD) = true ->
  h_id r103 = 103 -> h_to r103 = X -> includes (h_memo r103) (memo_pattern r HBD) = true ->
  (forall mn, hbd_query (ledger e) accts mn = [r106; r105; r104; r103]) ->
  (forall o, fails e o = false) ->
  pollHBDBatched accts ctx e s =
    (Some [hbd_transfer r105 r (now e); hbd_transfer r104 r (now e); hbd_transfer r103 r (now e)],
     {| kv := fun k' => if String.eqb k' (lastId_key X HBD) then Some 105 else kv s k';
        published := published s |}).
Proof.
  intros HXin HX HY Hc I106 T106 I105 T105 M105 I104 T104 M104 I103 T103 M103 Hq Hf.
  unfold pollHBDBatched. destruct accts as [|a0 l0]; [destruct HXin|].
  unfold bind.
  destruct (read_lastIds_spec HBD (a0 :: l0) [] MAX_SAFE_INTEGER e s) as [_ Hids].
  destruct (read_lastIds_ok_store HBD (a0 :: l0) [] MAX_SAFE_INTEGER e s (fun a _ => Hf _))
    as [[ids mn] Er].
  rewrite Er in *. specialize (Hids ids mn eq_refl).
  assert (Hg : get_or0 ids X = 100)
    by (rewrite (get_or0_read ids (a0 :: l0) s HBD X Hids HXin); exact Hc).
  unfold hbd_select, bind, call, askE, ret. rewrite Hf, Hq.
  cbn [hbd_scan]. rewrite T106, HY, T105, T104, T103, HX, I105, I104, I103, Hg, M105, M104, M103.
  cbn -[hbd_transfer write_maxIds String.eqb].
  unfold get_or0, map_set, map_get. rewrite String.eqb_refl. cbn -[hbd_transfer write_maxIds].
  rewrite !String.eqb_refl. cbn [Z.ltb Z.compare Pos.compare Pos.compare_cont].
  unfold write_maxIds, setLastId, bind, call, getS, putS, ret. rewrite !Hf. reflexivity.
Qed.

(** C4: account [X] has HBD cursor [100]; the HBD query answers rows [106]
    (to an unknown address [Y]) and [105, 104, 103] (to [X], memo matching
    [X]'s pattern); nothing fails and the custom_json query is empty. The
    cycle returns exactly the three transfers [105, 104, 103] for [X],
    drops [106], sets [X]'s HBD cursor to [105], leaves every other key
    of the store unchanged, and publishes the three transfers. *)
Theorem hbd_scenario_105 rs e s X Y r k r106 r105 r104 r103 :
  let accts := accountList (getAllAccounts rs) in
  let ctx := build_ctx (getAllAccounts rs) [] in
  map_get ctx X = Some (r, k) -> map_get ctx Y = None ->
  cursor s (lastId_key X HBD) = 100 ->
  h_id r106 = 106 -> h_to r106 = Y ->
  h_id r105 = 105 -> h_to r105 = X -> includes (h_memo r105) (memo_pattern r HBD) = true ->
  h_id r104 = 104 -> h_to r104 = X -> includes (h_memo r104) (memo_pattern r HBD) = true ->
  h_id r103 = 103 -> h_to r103 = X -> includes (h_memo r103) (memo_pattern r HBD) = true ->
  (forall mn, hbd_query (ledger e) accts mn = [r106; r105; r104; r103]) ->
  (forall lo hi mn, cj_query (ledger e) lo hi mn = []) ->
  (forall o, fails e o = false) ->
  let ts := [hbd_transfer r105 r (now e); hbd_transfer r104 r (now e);
             hbd_transfer r103 r (now e)] in
  fst (pollAllTransfers_with rs e s) = Some ts /\
  cursor (snd (pollAllTransfers_with rs e s)) (lastId_key X HBD) = 105 /\
  (forall key, key <> lastId_key X HBD -> kv (snd (pollAllTransfers_with rs e s)) key = kv s key) /\
  published (snd (pollAllTransfers_with rs e s)) =
    (published s ++ map (fun t => (rc_id r, t)) ts)%list.
Proof.
  intros accts ctx HX HY Hc I106 T106 I105 T105 M105 I104 T104 M104 I103 T103 M103 Hq Hcj Hf ts.
  assert (HXin : In X accts) by (apply ctx_in_accounts; fold ctx; congruence).
  pose proof (hbd_scenario_detector accts ctx e s X Y r k r106 r105 r104 r103 HXin HX HY Hc
                I106 T106 I105 T105 M105 I104 T104 M104 I103 T103 M103 Hq Hf) as E1.
  set (s1 := {| kv := fun k' => if String.eqb k' (lastId_key X HBD) then Some 105 else kv s k';
                published := published s |}) in E1.
  unfold pollAllTransfers_with. fold accts ctx. rewrite E1.
  rewrite (he_no_rows EURO accts ctx e s1 Hf Hcj), (he_no_rows OCLT accts ctx e s1 Hf Hcj).
  rewrite !app_nil_r.
  fold ts. destruct (publish_all_ok ts e s1 Hf) as (_ & P2 & P3).
  destruct (publish_all ts e s1) as [u s4]. cbn [fst snd] in *.
  split; [reflexivity|].
  split; [unfold cursor; rewrite P2; unfold s1; cbn [kv]; rewrite String.eqb_refl; reflexivity|].
  split.
  - intros key Hk. rewrite P2. unfold s1. cbn [kv].
    destruct (String.eqb_spec key (lastId_key X HBD)); [contradiction|reflexivity].
  - rewrite P3. reflexivity.
Qed.

Lemma hbd_scenario_105_witness :
  exists r k, map_get (build_ctx (getAllAccounts RESTAURANTS) []) "indies.cafe" = Some (r, k) /\
  let ts := [hbd_transfer (hbd_row 105 "indies.cafe" "TABLE 7") r 0;
             hbd_transfer (hbd_row 104 "indies.cafe" "TABLE 7") r 0;
             hbd_transfer (hbd_row 103 "indies.cafe" "TABLE 7") r 0] in
  fst (pollAllTransfers_with RESTAURANTS scenario_env (store_with 100)) = Some ts /\
  cursor (snd (pollAllTransfers_with RESTAURANTS scenario_env (store_with 100)))
         (lastId_key "indies.cafe" HBD) = 105 /\
  (forall key, key <> lastId_key "indies.cafe" HBD ->
     kv (snd (pollAllTransfers_with RESTAURANTS scenario_env (store_with 100))) key =
     kv (store_with 100) key) /\
  published (snd (pollAllTransfers_with RESTAURANTS scenario_env (store_with 100))) =
    (published (store_with 100) ++ map (fun t => (rc_id r, t)) ts)%list.
Proof.
  eexists; eexists; split; [reflexivity|].
  apply (hbd_scenario_105 RESTAURANTS scenario_env (store_with 100) "indies.cafe" "unknown.acct"
           _ Prod (hbd_row 106 "unknown.acct" "TABLE 4") (hbd_row 105 "indies.cafe" "TABLE 7")
           (hbd_row 104 "indies.cafe" "TABLE 7") (hbd_row 103 "indies.cafe" "TABLE 7"));
    try reflexivity; intros; reflexivity.
Defined.



